(** * The decision-evaluation pipeline and round state machine of [server.js]

    A shallow embedding of the scoring path of the game server:
    keyword screening, the key-pool client ([getApiKeys],
    [getClientForKey], [callGemini]), the response parser
    ([parseGeminiResult]), the fallback scorer ([localHeuristic]), the
    orchestrator ([evaluateDecision]) and the [POST /game] handler that
    applies an evaluation to the session's game.

    Conventions.
    - A JavaScript string is the list of its UTF-16 code units ([list N]).
      String literals of the source are written as Rocq string literals
      (the UTF-8 bytes of this file) and decoded by [utf16].
    - The numbers of the game (followers, round, change) are whole numbers
      far inside the range where doubles are exact; they are modelled in [Z].
    - Built-ins and the outside world are parameters of the development:
      [toLowerCase], [JSON_parse], the process environment, the loading of
      the SDK, the scoring backend and the random source.
    - Code that can throw lives in a state-and-exception monad over the
      process-wide heap ([aiClientCache], the request log, the console).
      What is thrown is an [Error] object of the pipeline or of the outside
      world, or any other JavaScript value, [undefined] and [null]
      included. *)

From Stdlib Require Import ZArith NArith String Ascii Bool.
From stdpp Require Import gmap list.

Local Open Scope Z_scope.
Set Warnings "-register-all".
Set Default Proof Using "Type".

(** ** JavaScript strings *)

Abbreviation jsstring := (list N).

(** UTF-8 bytes to UTF-16 code units. Ill-formed input yields U+FFFD. *)
Fixpoint utf16_of_utf8 (bs : list N) : jsstring :=
  match bs with
  | [] => []
  | b0 :: r0 =>
    if (b0 <? 0x80)%N then b0 :: utf16_of_utf8 r0
    else if (b0 <? 0xE0)%N then
      match r0 with
      | b1 :: r1 => ((b0 mod 32) * 64 + b1 mod 64)%N :: utf16_of_utf8 r1
      | _ => [0xFFFD%N]
      end
    else if (b0 <? 0xF0)%N then
      match r0 with
      | b1 :: b2 :: r2 =>
        ((b0 mod 16) * 4096 + (b1 mod 64) * 64 + b2 mod 64)%N :: utf16_of_utf8 r2
      | _ => [0xFFFD%N]
      end
    else
      match r0 with
      | b1 :: b2 :: b3 :: r3 =>
        let cp := ((b0 mod 8) * 262144 + (b1 mod 64) * 4096
                   + (b2 mod 64) * 64 + b3 mod 64 - 0x10000)%N in
        (0xD800 + cp / 1024)%N :: (0xDC00 + cp mod 1024)%N :: utf16_of_utf8 r3
      | _ => [0xFFFD%N]
      end
  end.

Definition utf16 (s : string) : jsstring :=
  utf16_of_utf8 (map N_of_ascii (list_ascii_of_string s)).

(** A literal that contains double quotes, written here with apostrophes
    in their place. *)
Definition utf16q (s : string) : jsstring :=
  map (fun c => if (c =? 39)%N then 34%N else c) (utf16 s).

(** [String.prototype.startsWith] and [String.prototype.includes]. *)
Fixpoint startsWith (s p : jsstring) : bool :=
  match p, s with
  | [], _ => true
  | _ :: _, [] => false
  | c :: p', d :: s' => (c =? d)%N && startsWith s' p'
  end.

Fixpoint includes (s p : jsstring) : bool :=
  startsWith s p ||
  match s with
  | [] => false
  | _ :: s' => includes s' p
  end.

(** White space and line terminators removed by [String.prototype.trim]. *)
Definition isTrimmable (c : N) : bool :=
  ((0x09 <=? c) && (c <=? 0x0D) || (c =? 0x20) || (c =? 0xA0) || (c =? 0x1680)
   || (0x2000 <=? c) && (c <=? 0x200A) || (c =? 0x2028) || (c =? 0x2029)
   || (c =? 0x202F) || (c =? 0x205F) || (c =? 0x3000) || (c =? 0xFEFF))%N.

Fixpoint trimStart (s : jsstring) : jsstring :=
  match s with
  | [] => []
  | c :: r => if isTrimmable c then trimStart r else s
  end.

Definition trimEnd (s : jsstring) : jsstring := rev (trimStart (rev s)).

Definition trim (s : jsstring) : jsstring := trimEnd (trimStart s).

(** [s.split(sep)] for a one-unit separator: never empty, [''.split(',')]
    is [['']]. *)
Fixpoint split (sep : N) (s : jsstring) : list jsstring :=
  match s with
  | [] => [[]]
  | c :: r =>
    if (c =? sep)%N then [] :: split sep r
    else match split sep r with
         | h :: t => (c :: h) :: t
         | [] => [[c]]
         end
  end.

(** [parts.join(sep)]. *)
Fixpoint join (sep : jsstring) (parts : list jsstring) : jsstring :=
  match parts with
  | [] => []
  | [p] => p
  | p :: rest => p ++ sep ++ join sep rest
  end.

(** [key.slice(-n)]: the last [n] code units. *)
Definition slice_last (n : nat) (s : jsstring) : jsstring :=
  drop (length s - n)%nat s.

(** A string is truthy when it is not empty. *)
Definition nonEmpty (s : jsstring) : bool :=
  match s with [] => false | _ => true end.

(** Decimal rendering of a number inside a template literal. *)
Fixpoint digits_of (fuel : nat) (n : N) (acc : jsstring) : jsstring :=
  match fuel with
  | O => acc
  | S fuel' =>
    let acc' := (48 + n mod 10)%N :: acc in
    if (n <? 10)%N then acc' else digits_of fuel' (n / 10)%N acc'
  end.

Definition Z_to_jsstring (z : Z) : jsstring :=
  let n := Z.abs_N z in
  let ds := digits_of (S (N.to_nat (N.log2 n))) n [] in
  if z <? 0 then 45%N :: ds else ds.

(** ** Keyword tables (server.js, lines 67-80) *)

Definition VIOLATION_KEYWORDS : list jsstring :=
  map utf16
    [ "chia rẽ"; "kích động"; "xâm phạm"; "chống phá"; "ép buộc";
      "trái phép"; "mê tín"; "diễn biến hoà bình"; "bạo lực" ]%string.

Definition POSITIVE_KEYWORDS : list jsstring :=
  map utf16
    [ "hoà bình"; "đoàn kết"; "từ thiện"; "giáo dục"; "phát triển";
      "hỗ trợ"; "tôn trọng"; "khuyến khích"; "công bằng" ]%string.

Definition NEGATIVE_KEYWORDS : list jsstring :=
  map utf16
    [ "bạo lực"; "chiến tranh"; "phân biệt"; "áp bức"; "mê tín" ]%string.

(** [clamp(num, min, max)] is [Math.min(max, Math.max(min, num))]. *)
Definition clamp (num min max : Z) : Z := Z.min max (Z.max min num).

(** ** Values, errors and the shapes of the outside world *)

(** The values [JSON.parse] can produce, and [undefined] for absent
    properties. *)
Inductive JsValue : Type :=
| JUndefined
| JNull
| JBool (b : bool)
| JNum (n : Z)
| JStr (s : jsstring)
| JArr (items : list JsValue)
| JObj (fields : list (jsstring * JsValue)).

(** Truthiness, as used by [||]. *)
Definition truthy (v : JsValue) : bool :=
  match v with
  | JUndefined | JNull => false
  | JBool b => b
  | JNum n => negb (n =? 0)
  | JStr s => nonEmpty s
  | JArr _ | JObj _ => true
  end.

Definition js_or (a b : JsValue) : JsValue := if truthy a then a else b.

(** What a [catch] of the pipeline can receive. The first five are the
    [new Error(...)] of the source, in source order; [TypeError] is the
    engine's; [External] stands for an [Error] object of the SDK, of the
    network or of a response accessor; [Thrown] is any other value that is
    thrown or that a promise is rejected with, [undefined] and [null]
    included: JavaScript lets every value be thrown. *)
Inductive JsError : Type :=
| NoApiKey            (* 'API_KEY / GOOGLE_API_KEY / ... is not set' *)
| MissingDependency   (* 'Missing dependency @google/genai. ...' *)
| AllKeysFailed       (* 'Gemini call failed for all configured API keys.' *)
| EmptyResponse       (* 'Empty response from Gemini' *)
| NotJson             (* 'Gemini response not in JSON format' *)
| TypeError
| External (tag : N)
| Thrown (v : JsValue).

Inductive Result (A : Type) : Type :=
| Ok (a : A)
| Throw (e : JsError).
Arguments Ok {A} a.
Arguments Throw {A} e.

(** The response of [generateContent], as [parseGeminiResult] tells the
    shapes apart: an object whose [response.text] is a function (with the
    outcome of calling it), an object with [candidates[0].content.parts]
    (each part with its optional [text]), a plain string, anything else. *)
Inductive GeminiResponse : Type :=
| RespAccessor (text : Result jsstring)
| RespCandidates (parts : list (option jsstring))
| RespString (s : jsstring)
| RespOther.

(** [process.env], the four variables [getApiKeys] reads. *)
Record ProcessEnv : Type := {
  GEMINI_API_KEYS : option jsstring;
  GEMINI_API_KEY : option jsstring;
  API_KEY : option jsstring;
  GOOGLE_API_KEY : option jsstring
}.

(** How [GoogleGenAI] is obtained in [getClientForKey]: by [require], by
    the dynamic [import] fallback, or not at all. *)
Inductive SdkLoad : Type :=
| RequireOk
| ImportOk
| ImportWithoutExport
| ImportFails (e : JsError).

(** A client handle: the key it is bound to and its identity, the number
    of handles constructed before it. *)
Record Client : Type := { apiKey : jsstring; serial : nat }.

Inductive ConsoleLine : Type :=
| GeminiKeyError (keyEnding : jsstring) (e : JsError)
| ScoringFailed (e : JsError)
| EvaluationFailed (e : JsError).

(** The process-wide mutable state: the client cache, and the observable
    trace (constructed handles, backend requests, console, random draws). *)
Record Heap : Type := {
  aiClientCache : gmap jsstring Client;
  constructed : list jsstring;
  requests : list (jsstring * jsstring);
  console : list ConsoleLine;
  randomDraws : nat
}.

Definition heap0 : Heap :=
  {| aiClientCache := ∅; constructed := []; requests := [];
     console := []; randomDraws := 0 |}.

(** ** Game data *)

Record EvaluationResult : Type := {
  violation : bool;
  change : Z;
  comment : JsValue;
  tips : list JsValue
}.

(** The snapshot passed to the scorer. *)
Record Context : Type := {
  ctx_religion : jsstring;
  ctx_followers : Z;
  ctx_round : Z
}.

(** An entry of [game.history]; the violating round has no [tips] and the
    marker string in [change]. *)
Record RoundRecord : Type := {
  rec_round : Z;
  rec_decision : jsstring;
  rec_change : JsValue;
  rec_comment : JsValue;
  rec_tips : option (list JsValue)
}.

Record Game : Type := {
  religion : jsstring;
  followers : Z;
  round : Z;
  history : list RoundRecord;
  lastFeedback : option EvaluationResult
}.

Record Session : Type := { username : jsstring; game : option Game }.

(** A field of [querystring.parse]: absent, one string, or an array when
    the key is repeated. *)
Inductive FormValue : Type :=
| FormAbsent
| FormOne (s : jsstring)
| FormMany (l : list jsstring).

Inductive HttpResponse : Type :=
| Redirect (location : jsstring)
| Status500 (body : jsstring).

(** ** Reference instances of the built-ins

    The pipeline is parametric in [toLowerCase] and [JSON.parse]. The
    instances below run inside Rocq and are used to evaluate the pipeline
    on concrete inputs: lower-casing of the Vietnamese alphabet (every
    other code unit is left as it is), and a reader for JSON texts whose
    numbers are integers. *)
Module Builtins.

Definition lowerUnit (c : N) : N :=
  (if (0x41 <=? c) && (c <=? 0x5A) then c + 32
   else if (0xC0 <=? c) && (c <=? 0xDE) && negb (c =? 0xD7) then c + 32
   else if (c =? 0x102) || (c =? 0x110) || (c =? 0x128) || (c =? 0x168)
           || (c =? 0x1A0) || (c =? 0x1AF) then c + 1
   else if (0x1EA0 <=? c) && (c <=? 0x1EF9) && N.even c then c + 1
   else c)%N.

Definition toLowerCase (s : jsstring) : jsstring := map lowerUnit s.

Definition isJsonSpace (c : N) : bool :=
  ((c =? 0x20) || (c =? 0x09) || (c =? 0x0A) || (c =? 0x0D))%N.

Fixpoint skipSpace (s : jsstring) : jsstring :=
  match s with
  | [] => []
  | c :: r => if isJsonSpace c then skipSpace r else s
  end.

Definition digitVal (c : N) : option Z :=
  if ((48 <=? c) && (c <=? 57))%N then Some (Z.of_N (c - 48)) else None.

Fixpoint readDigits (s : jsstring) (acc : Z) : Z * jsstring :=
  match s with
  | [] => (acc, [])
  | c :: r =>
    match digitVal c with
    | Some d => readDigits r (acc * 10 + d)
    | None => (acc, s)
    end
  end.

(** [0], or a non-zero digit followed by digits; a fraction or an exponent
    is outside the fragment. *)
Definition readInt (s : jsstring) : option (Z * jsstring) :=
  match s with
  | [] => None
  | c :: r =>
    match digitVal c with
    | None => None
    | Some d =>
      let '(n, rest) := if d =? 0 then (0, r) else readDigits r d in
      match rest with
      | c' :: _ =>
        if ((c' =? 46) || (c' =? 101) || (c' =? 69))%N then None
        else Some (n, rest)
      | [] => Some (n, rest)
      end
    end
  end.

Definition readNumber (s : jsstring) : option (Z * jsstring) :=
  match s with
  | 45%N :: r =>
    match readInt r with
    | Some (n, rest) => Some (- n, rest)
    | None => None
    end
  | _ => readInt s
  end.

Definition hexVal (c : N) : option N :=
  (if (48 <=? c) && (c <=? 57) then Some (c - 48)
   else if (97 <=? c) && (c <=? 102) then Some (c - 87)
   else if (65 <=? c) && (c <=? 70) then Some (c - 55)
   else None)%N.

Definition unescape (e : N) : option N :=
  (if (e =? 34) || (e =? 92) || (e =? 47) then Some e
   else if e =? 98 then Some 8
   else if e =? 102 then Some 12
   else if e =? 110 then Some 10
   else if e =? 114 then Some 13
   else if e =? 116 then Some 9
   else None)%N.

(** The body of a string, after its opening quote. *)
Fixpoint readString (s acc : jsstring) : option (jsstring * jsstring) :=
  match s with
  | [] => None
  | c :: r =>
    if (c =? 34)%N then Some (rev acc, r)
    else if (c =? 92)%N then
      match r with
      | [] => None
      | e :: r' =>
        if (e =? 117)%N then
          match r' with
          | h1 :: h2 :: h3 :: h4 :: r'' =>
            match hexVal h1, hexVal h2, hexVal h3, hexVal h4 with
            | Some a, Some b, Some c', Some d =>
              readString r'' ((a * 4096 + b * 256 + c' * 16 + d)%N :: acc)
            | _, _, _, _ => None
            end
          | _ => None
          end
        else
          match unescape e with
          | Some u => readString r' (u :: acc)
          | None => None
          end
      end
    else if (c <? 0x20)%N then None
    else readString r (c :: acc)
  end.

Section Reader.
Variable readValue : jsstring -> option (JsValue * jsstring).

(** Elements of an array, after [[]; [n] bounds their number. *)
Fixpoint readItems (n : nat) (s : jsstring) (acc : list JsValue)
  : option (list JsValue * jsstring) :=
  match n with
  | O => None
  | S n' =>
    match readValue s with
    | None => None
    | Some (v, r) =>
      match skipSpace r with
      | c :: r' =>
        if (c =? 44)%N then readItems n' r' (v :: acc)
        else if (c =? 93)%N then Some (rev (v :: acc), r')
        else None
      | [] => None
      end
    end
  end.

(** Members of an object, after [{]. *)
Fixpoint readMembers (n : nat) (s : jsstring) (acc : list (jsstring * JsValue))
  : option (list (jsstring * JsValue) * jsstring) :=
  match n with
  | O => None
  | S n' =>
    match skipSpace s with
    | q :: r =>
      if negb (q =? 34)%N then None else
      match readString r [] with
      | None => None
      | Some (k, r1) =>
        match skipSpace r1 with
        | colon :: r2 =>
          if negb (colon =? 58)%N then None else
          match readValue r2 with
          | None => None
          | Some (v, r3) =>
            match skipSpace r3 with
            | c :: r4 =>
              if (c =? 44)%N then readMembers n' r4 ((k, v) :: acc)
              else if (c =? 125)%N then Some (rev ((k, v) :: acc), r4)
              else None
            | [] => None
            end
          end
        | [] => None
        end
      end
    | [] => None
    end
  end.
End Reader.

Fixpoint readValue (fuel : nat) (s : jsstring) : option (JsValue * jsstring) :=
  match fuel with
  | O => None
  | S fuel' =>
    let s' := skipSpace s in
    if startsWith s' (utf16 "null") then Some (JNull, drop 4 s')
    else if startsWith s' (utf16 "true") then Some (JBool true, drop 4 s')
    else if startsWith s' (utf16 "false") then Some (JBool false, drop 5 s')
    else
      match s' with
      | [] => None
      | c :: r =>
        if (c =? 34)%N then
          match readString r [] with
          | Some (x, rest) => Some (JStr x, rest)
          | None => None
          end
        else if (c =? 91)%N then
          match skipSpace r with
          | 93%N :: rest => Some (JArr [], rest)
          | _ =>
            match readItems (readValue fuel') (S (length r)) r [] with
            | Some (l, rest) => Some (JArr l, rest)
            | None => None
            end
          end
        else if (c =? 123)%N then
          match skipSpace r with
          | 125%N :: rest => Some (JObj [], rest)
          | _ =>
            match readMembers (readValue fuel') (S (length r)) r [] with
            | Some (l, rest) => Some (JObj l, rest)
            | None => None
            end
          end
        else
          match readNumber s' with
          | Some (n, rest) => Some (JNum n, rest)
          | None => None
          end
      end
  end.

(** [JSON.parse] on the integer fragment: [None] is the [SyntaxError]. *)
Definition JSON_parse (text : jsstring) : option JsValue :=
  match readValue (S (length text)) text with
  | Some (v, rest) =>
    match skipSpace rest with
    | [] => Some v
    | _ :: _ => None
    end
  | None => None
  end.

End Builtins.

(** ** Constant texts of the source *)

(** [STATE_REGULATIONS.policy] and [STATE_REGULATIONS.prohibited]. *)
Definition STATE_REGULATIONS_policy : list jsstring :=
  [ utf16 "Thực hiện nhất quán chính sách tôn trọng và bảo đảm quyền tự do tín ngưỡng.";
    utf16 "Quyền sinh hoạt tôn giáo bình thường theo đúng pháp luật.";
    utf16 "Nghiêm cấm mọi hành vi chia rẽ, phân biệt đối xử vì lý do tôn giáo.";
    utf16 "Mục tiêu chung: 'Dân giàu, nước mạnh, dân chủ, công bằng, văn minh'." ].

Definition STATE_REGULATIONS_prohibited : list jsstring :=
  [ utf16 "Lợi dụng tôn giáo để hoạt động mê tín dị đoan.";
    utf16 "Làm trái pháp luật, kích động chia rẽ nhân dân, chia rẽ dân tộc.";
    utf16 "Xâm phạm an ninh quốc gia.";
    utf16 "Lợi dụng tôn giáo để chống phá, can thiệp nội bộ (âm mưu 'diễn biến hòa bình').";
    utf16 "Ép buộc người dân theo đạo hoặc truyền đạo trái phép." ].

(** The comment of the fixed violation result (lines 247, 264 and 271). *)
Definition VIOLATION_COMMENT : jsstring :=
  utf16 "Bạn đã vi phạm các quy định của Nhà nước, tôn giáo của bạn sẽ bị xóa bỏ.".

(** The comment of the fallback scorer (line 256). *)
Definition HEURISTIC_COMMENT : jsstring :=
  utf16 "Đánh giá nhanh (heuristic).".

(** The marker stored as [change] in the record of a violating round. *)
Definition VIOLATION_MARK : jsstring := utf16 "Vi phạm".

Definition EVALUATION_FAILED_BODY : jsstring := utf16 "Đánh giá quyết định thất bại.".

(** ** Monads: results, and results over the heap *)

Global Instance Result_ret : MRet Result := @Ok.
Global Instance Result_bind : MBind Result :=
  fun A B k r => match r with Ok a => k a | Throw e => Throw e end.

Definition M (A : Type) : Type := Heap -> Result A * Heap.

Global Instance M_ret : MRet M := fun A a h => (Ok a, h).
Global Instance M_bind : MBind M :=
  fun A B k m h =>
    match m h with
    | (Ok a, h') => k a h'
    | (Throw e, h') => (Throw e, h')
    end.

Definition lift {A} (r : Result A) : M A := fun h => (r, h).
Definition throw {A} (e : JsError) : M A := lift (Throw e).

(** Run [m] and hand its outcome over as a value: the [try] half of
    [try { ... } catch (err) { ... }]. *)
Definition attempt {A} (m : M A) : M (Result A) :=
  fun h => let '(r, h') := m h in (Ok r, h').

Definition try_catch {A} (body : M A) (handler : JsError -> M A) : M A :=
  r ← attempt body;
  match r with
  | Ok a => mret a
  | Throw err => handler err
  end.

Definition gets {A} (f : Heap -> A) : M A := fun h => (Ok (f h), h).
Definition modify (f : Heap -> Heap) : M unit := fun h => (Ok tt, f h).

(** The heap after one more line on the console. *)
Definition logged (h : Heap) (line : ConsoleLine) : Heap :=
  {| aiClientCache := aiClientCache h; constructed := constructed h;
     requests := requests h; console := console h ++ [line];
     randomDraws := randomDraws h |}.

Definition console_error (line : ConsoleLine) : M unit :=
  modify (fun h => logged h line).

(** [aiClientCache.set(apiKey, client)], after [new GoogleGenAI]. *)
Definition cache_set (key : jsstring) (client : Client) : M unit :=
  modify (fun h =>
    {| aiClientCache := <[key := client]> (aiClientCache h);
       constructed := constructed h; requests := requests h;
       console := console h; randomDraws := randomDraws h |}).

(** [new GoogleGenAI({ apiKey })]: a fresh handle; the construction is
    recorded. *)
Definition new_GoogleGenAI (key : jsstring) : M Client :=
  fun h =>
    (Ok {| apiKey := key; serial := length (constructed h) |},
     {| aiClientCache := aiClientCache h;
        constructed := constructed h ++ [key]; requests := requests h;
        console := console h; randomDraws := randomDraws h |}).

(** ** The pipeline *)

(** [.filter(Boolean)] on strings, and on strings that may be [undefined]. *)
Definition filterBoolean (l : list jsstring) : list jsstring :=
  List.filter nonEmpty l.

Definition filterDefined (l : list (option jsstring)) : list jsstring :=
  filterBoolean (omap id l).

(** [text.match(/\{[\s\S]*\}/)]: the leftmost [{] that has a [}] after it,
    up to the last [}] of the text. *)
Fixpoint upToLast (c : N) (s : jsstring) : option jsstring :=
  match s with
  | [] => None
  | d :: r =>
    match upToLast c r with
    | Some p => Some (d :: p)
    | None => if (d =? c)%N then Some [d] else None
    end
  end.

Fixpoint matchJsonObject (s : jsstring) : option jsstring :=
  match s with
  | [] => None
  | d :: r =>
    if (d =? 123)%N then
      match upToLast 125 r with
      | Some p => Some (d :: p)
      | None => matchJsonObject r
      end
    else matchJsonObject r
  end.

(** An own property of a parsed object; of duplicate keys the last one
    counts. *)
Definition getOwn (name : jsstring) (fields : list (jsstring * JsValue)) : JsValue :=
  fold_left (fun acc kv => if bool_decide (kv.1 = name) then kv.2 else acc)
            fields JUndefined.

(** [parsed.name] for the names the parser reads ([change], [comment],
    [tips]): a [TypeError] on [null], [undefined] on primitives and arrays. *)
Definition getProp (v : JsValue) (name : jsstring) : Result JsValue :=
  match v with
  | JUndefined | JNull => Throw TypeError
  | JObj fields => Ok (getOwn name fields)
  | JBool _ | JNum _ | JStr _ | JArr _ => Ok JUndefined
  end.

(** [err.message || err], the value printed by the [console.error] of the
    three [catch] blocks (lines 209, 280 and 710). Reading [message] off
    [undefined] or [null] throws a [TypeError]; for every other caught value
    the expression has a value, which is printed, and the console line is
    recorded with the caught value it was printed for. *)
Definition message_or_err (err : JsError) : Result JsError :=
  match err with
  | Thrown v => _ ← getProp v (utf16 "message"); Ok err
  | _ => Ok err
  end.

(** [lastError || new Error('Gemini call failed for all configured API
    keys.')], line 213: [lastError] starts as [null], and a falsy caught
    value is replaced as well. *)
Definition lastError_or_failed (lastError : option JsError) : JsError :=
  match lastError with
  | None => AllKeysFailed
  | Some (Thrown v) => if truthy v then Thrown v else AllKeysFailed
  | Some err => err
  end.

(** The number of keywords of a table that occur in a text. *)
Definition hits (keywords : list jsstring) (lower : jsstring) : nat :=
  length (List.filter (includes lower) keywords).

(** What [parseGeminiResult] returns. *)
Record Parsed : Type := {
  parsed_change : Z;
  parsed_comment : JsValue;
  parsed_tips : list JsValue
}.

Definition violationResult : EvaluationResult :=
  {| violation := true; change := -10000;
     comment := JStr VIOLATION_COMMENT; tips := [] |}.

(** ** Sample worlds

    Concrete environments, backends and sessions on which the pipeline is
    run in the examples below. *)
Module Scenario.

Definition key1 : jsstring := utf16 "AIza-first-key-0001".
Definition key2 : jsstring := utf16 "AIza-second-key-0002".

(** No credential at all. *)
Definition envNone : ProcessEnv :=
  {| GEMINI_API_KEYS := None; GEMINI_API_KEY := None;
     API_KEY := None; GOOGLE_API_KEY := None |}.

(** A pool of two keys. *)
Definition envTwo : ProcessEnv :=
  {| GEMINI_API_KEYS := Some (utf16 "AIza-first-key-0001, AIza-second-key-0002");
     GEMINI_API_KEY := None; API_KEY := None; GOOGLE_API_KEY := None |}.

(** The same key configured twice, in two variables. *)
Definition envTwice : ProcessEnv :=
  {| GEMINI_API_KEYS := None; GEMINI_API_KEY := Some key1;
     API_KEY := Some key1; GOOGLE_API_KEY := None |}.

Definition answer120 : jsstring :=
  utf16q "{'change': 120, 'comment': 'ok', 'tips': ['a']}".

Definition answerViolated : jsstring :=
  utf16q "{'change': -10000, 'comment': 'violated'}".

(** The first key hits a transient error, the second one answers. *)
Definition backendSecond (n : nat) (key prompt : jsstring) : Result GeminiResponse :=
  if bool_decide (key = key1) then Throw (External 503)
  else Ok (RespCandidates [Some answer120]).

(** Every request fails. *)
Definition backendDown (n : nat) (key prompt : jsstring) : Result GeminiResponse :=
  Throw (External 503).

Definition answer80 : jsstring :=
  utf16q "{'change': 80, 'comment': 'ok', 'tips': []}".

(** The model grants eighty followers. *)
Definition backendEighty (n : nat) (key prompt : jsstring) : Result GeminiResponse :=
  Ok (RespCandidates [Some answer80]).

(** The model flags the decision. *)
Definition backendFlags (n : nat) (key prompt : jsstring) : Result GeminiResponse :=
  Ok (RespString answerViolated).

(** The model answers with the JSON text [null]. *)
Definition backendNull (n : nat) (key prompt : jsstring) : Result GeminiResponse :=
  Ok (RespString (utf16 "null")).

(** The request with the first key is rejected with [null]; the second
    key would answer. *)
Definition backendRejectsNull (n : nat) (key prompt : jsstring)
  : Result GeminiResponse :=
  if bool_decide (key = key1) then Throw (Thrown JNull)
  else Ok (RespCandidates [Some answer120]).

(** The response has a [response.text] function, and calling it throws
    [undefined]. *)
Definition backendAccessorThrows (n : nat) (key prompt : jsstring)
  : Result GeminiResponse :=
  Ok (RespAccessor (Throw (Thrown JUndefined))).

(** The same, throwing an [Error] object. *)
Definition backendAccessorFails (n : nat) (key prompt : jsstring)
  : Result GeminiResponse :=
  Ok (RespAccessor (Throw (External 7))).

(** Every request is rejected with the empty string. *)
Definition backendRejectsEmpty (n : nat) (key prompt : jsstring)
  : Result GeminiResponse :=
  Throw (Thrown (JStr [])).

Definition draw3 (n : nat) : Z := 3.

(** A suggested policy of the game (line 85), and a decision that shouts
    a forbidden word. *)
Definition decisionCharity : jsstring := utf16 "Tổ chức hoạt động từ thiện hỗ trợ người nghèo.".
Definition decisionShout : jsstring := utf16 "BẠO LỰC!".

Definition context9 : Context :=
  {| ctx_religion := utf16 "Phật giáo"; ctx_followers := 950; ctx_round := 9 |}.

Definition game9 : Game :=
  {| religion := utf16 "Phật giáo"; followers := 950; round := 9;
     history := []; lastFeedback := None |}.

(** A game whose tenth round has been played, before [/end] is visited. *)
Definition gameOver : Game :=
  {| religion := utf16 "Phật giáo"; followers := 0; round := 11;
     history := []; lastFeedback := None |}.

Definition sessionOf (g : Game) : Session :=
  {| username := utf16 "An"; game := Some g |}.

End Scenario.

(** What the [try] block of lines 268-278 returns from a parsed answer. *)
Definition resultOfParsed (parsed : Parsed) : EvaluationResult :=
  if parsed_change parsed <=? -10000 then
    {| violation := true; change := -10000;
       comment := js_or (parsed_comment parsed) (JStr VIOLATION_COMMENT);
       tips := parsed_tips parsed |}
  else
    {| violation := false;
       change := clamp (parsed_change parsed) (-400) 400;
       comment := js_or (parsed_comment parsed) (JStr []);
       tips := parsed_tips parsed |}.

(** The invariant of an evaluation result: a violation carries the
    sentinel, a score lies in [-400, 400]. *)
Definition wellFormed (res : EvaluationResult) : Prop :=
  if violation res then change res = -10000 else -400 <= change res <= 400.

(** The client cache is sound when every handle was constructed once, the
    cached keys are the constructed ones, and each key maps to a handle
    bound to that key. *)
Definition cache_inv (h : Heap) : Prop :=
  NoDup (constructed h)
  /\ (forall k, k ∈ constructed h <-> is_Some (aiClientCache h !! k))
  /\ (forall k c, aiClientCache h !! k = Some c -> apiKey c = k).

(** Handles are never evicted nor replaced. *)
Definition cache_kept (h h' : Heap) : Prop :=
  forall k c, aiClientCache h !! k = Some c -> aiClientCache h' !! k = Some c.

Definition keyErrorLines (keys : list jsstring) (errs : list JsError) : list ConsoleLine :=
  zip_with (fun k e => GeminiKeyError (slice_last 4 k) e) keys errs.

Definition requestsFor (prompt : jsstring) (keys : list jsstring)
  : list (jsstring * jsstring) :=
  map (fun k => (k, prompt)) keys.

Section Pipeline.

(** [String.prototype.toLowerCase] and [JSON.parse] ([None]: it throws). *)
Variable toLowerCase : jsstring -> jsstring.
Variable JSON_parse : jsstring -> option JsValue.
(** [process.env] and the way the SDK loads. *)
Variable env : ProcessEnv.
Variable sdk : SdkLoad.
(** [client.models.generateContent] for the model of line 203: the
    outcome of the [n]-th request of the process, sent with a key and a
    prompt. *)
Variable backend : nat -> jsstring -> jsstring -> Result GeminiResponse.
(** [Math.floor(Math.random() * 7)] at the [n]-th draw of the process. *)
Variable floorRandom7 : nat -> Z.

(** Lines 141-163. *)
Definition buildGeminiPrompt (decision : jsstring) (context : Context) : jsstring :=
  let regulationsText :=
    join [10%N]
      [ utf16 "Chính sách: " ++ join (utf16 " | ") STATE_REGULATIONS_policy;
        utf16 "Nghiêm cấm: " ++ join (utf16 " | ") STATE_REGULATIONS_prohibited ] in
  join [10%N]
    [ utf16 "Bạn là một bậc hiền triết tôn giáo và chuyên gia đánh giá chính sách.";
      utf16 "Bối cảnh: tôn giáo hoạt động trong thời kỳ quá độ lên chủ nghĩa xã hội; phải khả thi, hòa bình, tôn trọng luật và quy định Nhà nước.";
      utf16 "Nhiệm vụ: đọc chính sách người chơi đưa ra, đánh giá tính khả thi, tác động tới số tín đồ, và đưa nhận xét ngắn gọn.";
      utf16q "Đặc biệt: nếu chính sách vi phạm quy định Nhà nước, kích động bạo lực, hoặc chia rẽ, hãy đặt change = -10000 và comment = 'Bạn đã vi phạm các quy định của Nhà nước, tôn giáo của bạn sẽ bị xóa bỏ.'";
      utf16 "Thông tin tôn giáo:";
      utf16 "- Tên tôn giáo: " ++ ctx_religion context;
      utf16 "- Vòng: " ++ Z_to_jsstring (ctx_round context);
      utf16 "- Số tín đồ hiện tại: " ++ Z_to_jsstring (ctx_followers context);
      utf16 "Quy định Nhà nước:";
      regulationsText;
      utf16 "Chính sách người chơi đề xuất:";
      decision;
      utf16 "Định dạng trả về (JSON duy nhất, không giải thích thêm):";
      utf16q "{'change': number (âm hoặc dương), 'comment': 'nhận xét ngắn gọn', 'tips': ['gợi ý1','gợi ý2']}";
      utf16 "Giới hạn: change trong khoảng -400 đến 400 nếu hợp lệ; dùng -10000 khi vi phạm." ].

(** Lines 166-175. *)
Definition getApiKeys : Result (list jsstring) :=
  let listEnv := default [] (GEMINI_API_KEYS env) in
  let list := filterBoolean (map trim (split 44 listEnv)) in
  let singles :=
    filterDefined [GEMINI_API_KEY env; API_KEY env; GOOGLE_API_KEY env] in
  let combined := take 6 (filterBoolean (list ++ singles)) in
  if decide (length combined = 0%nat) then Throw NoApiKey else Ok combined.

(** Lines 179-189: [require('@google/genai')], else the dynamic import. *)
Definition load_GoogleGenAI : M unit :=
  match sdk with
  | RequireOk | ImportOk => mret tt
  | ImportWithoutExport => throw MissingDependency
  | ImportFails e => throw e
  end.

(** Lines 177-193. *)
Definition getClientForKey (key : jsstring) : M Client :=
  cache ← gets aiClientCache;
  match cache !! key with
  | Some client => mret client
  | None =>
    load_GoogleGenAI;;
    client ← new_GoogleGenAI key;
    cache_set key client;;
    mret client
  end.

(** [client.models.generateContent({ model, contents: prompt })]: one
    request to the backend with the client's key. *)
Definition generateContent (client : Client) (prompt : jsstring) : M GeminiResponse :=
  fun h =>
    (backend (length (requests h)) (apiKey client) prompt,
     {| aiClientCache := aiClientCache h; constructed := constructed h;
        requests := requests h ++ [(apiKey client, prompt)];
        console := console h; randomDraws := randomDraws h |}).

(** Lines 201-206: the body of the [try], one scoring call with one key. *)
Definition attemptKey (prompt key : jsstring) : M GeminiResponse :=
  client ← getClientForKey key;
  generateContent client prompt.

(** Lines 198-213: the loop over the keys and the final [throw]. *)
Fixpoint callGemini_loop (prompt : jsstring) (apiKeys : list jsstring)
         (lastError : option JsError) : M GeminiResponse :=
  match apiKeys with
  | [] => throw (lastError_or_failed lastError)
  | key :: rest =>
    r ← attempt (attemptKey prompt key);
    match r with
    | Ok result => mret result
    | Throw err =>
      let lastError := Some err in
      shown ← lift (message_or_err err);
      console_error (GeminiKeyError (slice_last 4 key) shown);;
      callGemini_loop prompt rest lastError
    end
  end.

(** Lines 195-214. *)
Definition callGemini (decision : jsstring) (context : Context) : M GeminiResponse :=
  let prompt := buildGeminiPrompt decision context in
  apiKeys ← lift getApiKeys;
  callGemini_loop prompt apiKeys None.

(** Lines 217-226: the text of a response, before the final trim. *)
Definition responseText (resp : GeminiResponse) : Result jsstring :=
  match resp with
  | RespAccessor text => text
  | RespCandidates parts => Ok (trim (join [32%N] (map (default []) parts)))
  | RespString s => Ok s
  | RespOther => Ok []
  end.

(** Lines 216-240. *)
Definition parseGeminiResult (resp : GeminiResponse) : Result Parsed :=
  text0 ← responseText resp;
  let text := trim text0 in
  if negb (nonEmpty text) then Throw EmptyResponse else
  let jsonText := default text (matchJsonObject text) in
  match JSON_parse jsonText with
  | None => Throw NotJson
  | Some parsed =>
    c ← getProp parsed (utf16 "change");
    let change := match c with JNum n => n | _ => 0 end in
    cm ← getProp parsed (utf16 "comment");
    let comment := js_or cm (JStr []) in
    t ← getProp parsed (utf16 "tips");
    let tips := match t with JArr items => items | _ => [] end in
    Ok {| parsed_change := change; parsed_comment := comment;
          parsed_tips := tips |}
  end.

(** The two [forEach] of lines 250-252, run on [let score = 0]. *)
Definition heuristicScore (lower : jsstring) : Z :=
  let score := 0 in
  let score :=
    fold_left (fun score pk => if includes lower pk then score + 1 else score)
              POSITIVE_KEYWORDS score in
  fold_left (fun score nk => if includes lower nk then score - 1 else score)
            NEGATIVE_KEYWORDS score.

(** Lines 243-257, with the value [r] of [Math.floor(Math.random() * 7)]
    as an argument. *)
Definition localHeuristic_with (r : Z) (decision : jsstring) : EvaluationResult :=
  let lower := toLowerCase decision in
  if existsb (includes lower) VIOLATION_KEYWORDS then violationResult
  else
    let score := heuristicScore lower in
    let randomFactor := r - 2 in
    let change := (score * 50) + (randomFactor * 20) in
    let change := clamp change (-150) 300 in
    {| violation := false; change := change;
       comment := JStr HEURISTIC_COMMENT; tips := [] |}.

(** [Math.floor(Math.random() * 7)]: the next draw. *)
Definition Math_floor_random7 : M Z :=
  fun h =>
    (Ok (floorRandom7 (randomDraws h)),
     {| aiClientCache := aiClientCache h; constructed := constructed h;
        requests := requests h; console := console h;
        randomDraws := S (randomDraws h) |}).

(** Lines 243-257. The draw is taken only on the scoring path. *)
Definition localHeuristic (decision : jsstring) : M EvaluationResult :=
  let lower := toLowerCase decision in
  if existsb (includes lower) VIOLATION_KEYWORDS then mret violationResult
  else
    r ← Math_floor_random7;
    mret (localHeuristic_with r decision).

(** Lines 260-283. *)
Definition evaluateDecision (decision : jsstring) (context : Context)
  : M EvaluationResult :=
  let lower := toLowerCase decision in
  if existsb (includes lower) VIOLATION_KEYWORDS then mret violationResult
  else
    try_catch
      (geminiResp ← callGemini decision context;
       parsed ← lift (parseGeminiResult geminiResp);
       if parsed_change parsed <=? -10000 then
         mret {| violation := true; change := -10000;
                 comment := js_or (parsed_comment parsed) (JStr VIOLATION_COMMENT);
                 tips := parsed_tips parsed |}
       else
         mret {| violation := false;
                 change := clamp (parsed_change parsed) (-400) 400;
                 comment := js_or (parsed_comment parsed) (JStr []);
                 tips := parsed_tips parsed |})
      (fun err =>
         shown ← lift (message_or_err err);
         console_error (ScoringFailed shown);;
         localHeuristic decision).

(** ** The round state machine: the [/game] routes *)

(** [(form.decision || '').trim()], line 679; an array has no [trim]. *)
Definition decisionOfForm (v : FormValue) : Result jsstring :=
  match v with
  | FormAbsent => Ok (trim [])
  | FormOne s => Ok (trim s)
  | FormMany _ => Throw TypeError
  end.

Definition with_game (s : Session) (g : Game) : Session :=
  {| username := username s; game := Some g |}.

(** Lines 692-699: the violating branch. *)
Definition applyViolation (g : Game) (decision : jsstring) (result : EvaluationResult) : Game :=
  {| religion := religion g;
     followers := 0;
     round := 11;
     history := history g ++
       [ {| rec_round := round g; rec_decision := decision;
            rec_change := JStr VIOLATION_MARK; rec_comment := comment result;
            rec_tips := None |} ];
     lastFeedback := Some result |}.

(** Lines 701-705: the scoring branch. *)
Definition applyChange (g : Game) (decision : jsstring) (result : EvaluationResult) : Game :=
  let followers1 := followers g + change result in
  let followers2 := if followers1 <? 0 then 0 else followers1 in
  {| religion := religion g;
     followers := followers2;
     round := round g + 1;
     history := history g ++
       [ {| rec_round := round g; rec_decision := decision;
            rec_change := JNum (change result); rec_comment := comment result;
            rec_tips := Some (tips result) |} ];
     lastFeedback := Some result |}.

(** [POST /game], lines 602-607 and 674-714: the operation the
    specification calls [applyDecision]. The handler returns the session
    as it leaves it and the response; a [Throw] is a rejection nobody
    handles, raised before anything is written. When the evaluation
    throws, the [catch] of lines 708-712 answers 500 and the session is
    the one the handler was given. *)
Definition postGame (session : option Session) (form_decision : FormValue)
  : M (option Session * HttpResponse) :=
  match session with
  | None => mret (session, Redirect (utf16 "/"))
  | Some s =>
    if negb (nonEmpty (username s)) then mret (session, Redirect (utf16 "/"))
    else
      match game s with
      | None => mret (session, Redirect (utf16 "/"))
      | Some g =>
        decision ← lift (decisionOfForm form_decision);
        if negb (nonEmpty decision) then mret (session, Redirect (utf16 "/game"))
        else
          try_catch
            (result ← evaluateDecision decision
               {| ctx_religion := religion g; ctx_followers := followers g;
                  ctx_round := round g |};
             if violation result then
               mret (Some (with_game s (applyViolation g decision result)),
                     Redirect (utf16 "/end"))
             else
               mret (Some (with_game s (applyChange g decision result)),
                     Redirect (utf16 "/game")))
            (fun err =>
               shown ← lift (message_or_err err);
               console_error (EvaluationFailed shown);;
               mret (session, Status500 EVALUATION_FAILED_BODY))
      end
  end.

(** [GET /game], lines 602-615: where the request goes. [None] is the
    rendered page of the current round. *)
Definition getGame (session : option Session) : option jsstring :=
  match session with
  | None => Some (utf16 "/")
  | Some s =>
    if negb (nonEmpty (username s)) then Some (utf16 "/")
    else
      match game s with
      | None => Some (utf16 "/")
      | Some g => if round g >? 10 then Some (utf16 "/end") else None
      end
  end.

(** Unfold the plumbing of a monadic run. *)
Ltac run_M := unfold try_catch, attempt, throw, lift, gets, mbind, M_bind.

(** ** Strings: [includes] is the substring test *)

Lemma startsWith_spec (p s : jsstring) :
  startsWith s p = true <-> exists b, s = p ++ b.
Proof.
  revert s. induction p as [|c p IH]; intros s; simpl.
  - split; [intros _; exists s; reflexivity | intros _; destruct s; reflexivity].
  - destruct s as [|d s].
    + split; [discriminate | intros [b Hb]; discriminate].
    + simpl. rewrite andb_true_iff, N.eqb_eq, IH. split.
      * intros [-> [b ->]]. exists b. reflexivity.
      * intros [b Hb]. injection Hb as -> ->. split; [reflexivity | eauto].
Qed.

Lemma includes_spec (s p : jsstring) :
  includes s p = true <-> exists a b, s = a ++ p ++ b.
Proof.
  induction s as [|d s IH]; cbn [includes]; rewrite orb_true_iff, startsWith_spec.
  - split.
    + intros [[b Hb] | ?]; [| discriminate]. exists [], b. exact Hb.
    + intros [a [b Hab]]. left. destruct a; [| discriminate]. eauto.
  - rewrite IH. split.
    + intros [[b Hb] | [a [b Hab]]].
      * exists [], b. exact Hb.
      * exists (d :: a), b. simpl. congruence.
    + intros [[|d' a] [b Hab]].
      * left. eauto.
      * right. injection Hab as _ ->. eauto.
Qed.

(** The screening loops of lines 245-249 and 262-266 say yes exactly
    when some violation keyword is a substring of the lower-cased text. *)
Lemma screening_spec (lower : jsstring) :
  existsb (includes lower) VIOLATION_KEYWORDS = true <->
  exists kw a b, In kw VIOLATION_KEYWORDS /\ lower = a ++ kw ++ b.
Proof.
  rewrite existsb_exists. split.
  - intros [kw [Hin Hinc]]. apply includes_spec in Hinc as [a [b Hab]]. eauto.
  - intros [kw [a [b [Hin Hab]]]]. exists kw. split; [exact Hin |].
    apply includes_spec. eauto.
Qed.

Lemma screening_false (lower kw : jsstring) :
  existsb (includes lower) VIOLATION_KEYWORDS = false ->
  In kw VIOLATION_KEYWORDS -> includes lower kw = false.
Proof.
  intros Hex Hin. destruct (includes lower kw) eqn:E; [| reflexivity].
  assert (existsb (includes lower) VIOLATION_KEYWORDS = true) as Ht
    by (apply existsb_exists; eauto).
  congruence.
Qed.

(** ** The fallback scorer *)

Lemma clamp_bounds (num lo hi : Z) : lo <= hi -> lo <= clamp num lo hi <= hi.
Proof. unfold clamp. lia. Qed.

Lemma fold_count_up (f : jsstring -> bool) (l : list jsstring) (a : Z) :
  fold_left (fun score k => if f k then score + 1 else score) l a
  = a + Z.of_nat (length (List.filter f l)).
Proof.
  revert a. induction l as [|k l IH]; intros a; simpl; [lia |].
  rewrite IH. destruct (f k); simpl; lia.
Qed.

Lemma fold_count_down (f : jsstring -> bool) (l : list jsstring) (a : Z) :
  fold_left (fun score k => if f k then score - 1 else score) l a
  = a - Z.of_nat (length (List.filter f l)).
Proof.
  revert a. induction l as [|k l IH]; intros a; simpl; [lia |].
  rewrite IH. destruct (f k); simpl; lia.
Qed.

Lemma hits_cons (k : jsstring) (l : list jsstring) (lower : jsstring) :
  hits (k :: l) lower = if includes lower k then S (hits l lower) else hits l lower.
Proof. unfold hits. simpl. destruct (includes lower k); reflexivity. Qed.

Lemma heuristicScore_hits (lower : jsstring) :
  heuristicScore lower
  = Z.of_nat (hits POSITIVE_KEYWORDS lower) - Z.of_nat (hits NEGATIVE_KEYWORDS lower).
Proof.
  unfold heuristicScore, hits. rewrite fold_count_down, fold_count_up. lia.
Qed.

(** The monadic scorer is the pure one at the current draw; it always
    returns, and touches nothing but the draw counter. *)
Lemma localHeuristic_run (decision : jsstring) (h : Heap) :
  exists h',
    localHeuristic decision h
    = (Ok (localHeuristic_with (floorRandom7 (randomDraws h)) decision), h')
    /\ aiClientCache h' = aiClientCache h
    /\ constructed h' = constructed h
    /\ requests h' = requests h
    /\ console h' = console h.
Proof.
  unfold localHeuristic, localHeuristic_with.
  destruct (existsb (includes (toLowerCase decision)) VIOLATION_KEYWORDS) eqn:E.
  - exists h. repeat split; reflexivity.
  - eexists. split; [reflexivity |]. simpl. repeat split; reflexivity.
Qed.

(** C6. The fallback scorer always returns and sends no request. When a
    violation keyword occurs in the lower-cased text it returns the fixed
    violation result (change -10000). Otherwise, with score the number of
    positive keywords found minus the number of negative keywords found
    and jitter the draw minus 2, the change is score*50 + jitter*20
    clamped to [-150, 300]: that number itself when it lies between -150
    and 300, -150 when it is smaller and 300 when it is larger; so it lies
    in [-150, 300] for every draw. The comment is the fixed one, there are
    no tips, and the jitter lies in -2..4 for a draw in 0..6. *)
Theorem localHeuristic_spec (decision : jsstring) (h : Heap) :
  let lower := toLowerCase decision in
  let r := floorRandom7 (randomDraws h) in
  exists res h',
    localHeuristic decision h = (Ok res, h')
    /\ requests h' = requests h
    /\ aiClientCache h' = aiClientCache h
    /\ ((exists kw a b, In kw VIOLATION_KEYWORDS /\ lower = a ++ kw ++ b) ->
        res = violationResult /\ violation res = true /\ change res = -10000)
    /\ (~ (exists kw a b, In kw VIOLATION_KEYWORDS /\ lower = a ++ kw ++ b) ->
        let score := Z.of_nat (hits POSITIVE_KEYWORDS lower)
                     - Z.of_nat (hits NEGATIVE_KEYWORDS lower) in
        let jitter := r - 2 in
        let raw := score * 50 + jitter * 20 in
        violation res = false
        /\ (raw < -150 -> change res = -150)
        /\ (-150 <= raw <= 300 -> change res = raw)
        /\ (300 < raw -> change res = 300)
        /\ -150 <= change res <= 300
        /\ comment res = JStr HEURISTIC_COMMENT
        /\ tips res = []
        /\ (0 <= r <= 6 -> -2 <= jitter <= 4)).
Proof.
  intros lower r.
  destruct (localHeuristic_run decision h) as (h' & Hrun & Hc & _ & Hr & _).
  exists (localHeuristic_with r decision), h'.
  split; [exact Hrun |]. split; [exact Hr |]. split; [exact Hc |].
  unfold localHeuristic_with. fold lower.
  destruct (existsb (includes lower) VIOLATION_KEYWORDS) eqn:E.
  - split; [intros _; repeat split |].
    intros Hno. exfalso. apply Hno. apply screening_spec. exact E.
  - split.
    + intros Hyes. apply screening_spec in Hyes. congruence.
    + intros _. cbn [violation change comment tips]. rewrite heuristicScore_hits.
      unfold clamp.
      split; [reflexivity |]. split; [lia |]. split; [lia |]. split; [lia |].
      split; [lia |]. split; [reflexivity |]. split; [reflexivity | lia].
Qed.

(** C10. The violation table and the negative table share the two words
    of line 79 that are also on lines 69-70; a text whose lower-casing
    contains either of them is a violation for the orchestrator and for the
    fallback scorer alike, with nothing else done; so on a text that passes
    the screening the negative count is the count of the three other
    negative words, and only they lower the fallback score. *)
Theorem overlapping_keywords_unreachable :
  let bao_luc := utf16 "bạo lực" in
  let me_tin := utf16 "mê tín" in
  let others := [utf16 "chiến tranh"; utf16 "phân biệt"; utf16 "áp bức"] in
  (In bao_luc VIOLATION_KEYWORDS /\ In bao_luc NEGATIVE_KEYWORDS
   /\ In me_tin VIOLATION_KEYWORDS /\ In me_tin NEGATIVE_KEYWORDS)
  /\ (forall decision context h,
        includes (toLowerCase decision) bao_luc = true
        \/ includes (toLowerCase decision) me_tin = true ->
        evaluateDecision decision context h = (Ok violationResult, h)
        /\ localHeuristic decision h = (Ok violationResult, h))
  /\ (forall r decision,
        existsb (includes (toLowerCase decision)) VIOLATION_KEYWORDS = false ->
        let lower := toLowerCase decision in
        hits NEGATIVE_KEYWORDS lower = hits others lower
        /\ heuristicScore lower
           = Z.of_nat (hits POSITIVE_KEYWORDS lower) - Z.of_nat (hits others lower)
        /\ change (localHeuristic_with r decision)
           = clamp ((Z.of_nat (hits POSITIVE_KEYWORDS lower)
                     - Z.of_nat (hits others lower)) * 50 + (r - 2) * 20)
                   (-150) 300).
Proof.
  intros bao_luc me_tin others.
  assert (In bao_luc VIOLATION_KEYWORDS /\ In me_tin VIOLATION_KEYWORDS) as [Hb Hm].
  { subst bao_luc me_tin. cbv [VIOLATION_KEYWORDS map In]. tauto. }
  split; [| split].
  - repeat split; try assumption;
      subst bao_luc me_tin; cbv [NEGATIVE_KEYWORDS map In]; tauto.
  - intros decision context h Hinc.
    assert (existsb (includes (toLowerCase decision)) VIOLATION_KEYWORDS = true) as E.
    { apply existsb_exists. destruct Hinc; eauto. }
    unfold evaluateDecision, localHeuristic. rewrite E. split; reflexivity.
  - intros r decision E lower.
    assert (hits NEGATIVE_KEYWORDS lower = hits others lower) as Hhits.
    { pose proof (screening_false _ _ E Hb) as Eb.
      pose proof (screening_false _ _ E Hm) as Em.
      subst lower others bao_luc me_tin.
      unfold NEGATIVE_KEYWORDS. cbn [map]. rewrite !hits_cons, Eb, Em.
      reflexivity. }
    split; [exact Hhits |].
    assert (heuristicScore lower
            = Z.of_nat (hits POSITIVE_KEYWORDS lower) - Z.of_nat (hits others lower)) as Hs
      by (rewrite heuristicScore_hits, Hhits; reflexivity).
    split; [exact Hs |].
    subst lower. unfold localHeuristic_with. rewrite E. cbn [change].
    rewrite Hs. reflexivity.
Qed.

(** ** The key-pool client *)

Lemma cache_inv_heap0 : cache_inv heap0.
Proof.
  repeat split; simpl.
  - constructor.
  - intros Hk. inversion Hk.
  - intros [c Hc]. rewrite lookup_empty in Hc. discriminate.
  - intros k c Hc. rewrite lookup_empty in Hc. discriminate.
Qed.

(** What [getApiKeys] returns is a non-empty pool of at most six non-empty
    keys. *)
Lemma getApiKeys_pool (pool : list jsstring) :
  getApiKeys = Ok pool ->
  (0 < length pool <= 6)%nat /\ Forall (fun k => nonEmpty k = true) pool.
Proof.
  unfold getApiKeys.
  destruct (decide (length (take 6 _) = 0%nat)) as [|Hlen]; [discriminate |].
  intros [= <-]. split.
  - split; [exact (proj1 (Nat.neq_0_lt_0 _) Hlen) |].
    rewrite length_take. apply Nat.le_min_l.
  - apply Forall_take. unfold filterBoolean.
    apply Forall_forall. intros k Hk. apply list_elem_of_In, filter_In in Hk.
    exact (proj2 Hk).
Qed.

(** With none of the four variables set there is no pool. *)
Lemma getApiKeys_unset :
  GEMINI_API_KEYS env = None -> GEMINI_API_KEY env = None ->
  API_KEY env = None -> GOOGLE_API_KEY env = None ->
  getApiKeys = Throw NoApiKey.
Proof.
  intros H1 H2 H3 H4. unfold getApiKeys. rewrite H1, H2, H3, H4. reflexivity.
Qed.

(** One scoring call with one key: the handle is looked up or made, then
    one request goes out, to that key, and its outcome is the outcome of
    the call; unless the key has no handle yet and the SDK does not load,
    in which case the loading error is thrown and no request goes out. *)
Lemma attemptKey_run (prompt key : jsstring) (h : Heap) :
  cache_inv h ->
  exists r h1,
    attemptKey prompt key h = (r, h1)
    /\ cache_inv h1 /\ cache_kept h h1
    /\ console h1 = console h
    /\ randomDraws h1 = randomDraws h
    /\ (forall k, k ∈ constructed h1 -> k ∈ constructed h \/ k = key)
    /\ ((requests h1 = requests h
         /\ exists e, r = Throw e
                      /\ (sdk = ImportWithoutExport /\ e = MissingDependency
                          \/ sdk = ImportFails e))
        \/ (requests h1 = requests h ++ [(key, prompt)]
            /\ r = backend (length (requests h)) key prompt)).
Proof.
  intros (Hnd & Hdom & Hkey).
  unfold attemptKey, getClientForKey, gets, mbind, M_bind.
  destruct (aiClientCache h !! key) as [client|] eqn:Hlook.
  - (* cached *)
    unfold mret, M_ret, generateContent. rewrite (Hkey _ _ Hlook).
    eexists _, _. split; [reflexivity |]. cbn [aiClientCache constructed requests console randomDraws].
    split; [repeat split; [exact Hnd | apply Hdom | apply Hdom | exact Hkey] |].
    split; [intros k c Hc; exact Hc |].
    repeat split; auto.
  - (* not cached *)
    assert (key ∉ constructed h) as Hfresh.
    { intros Hin. apply Hdom in Hin as [c Hc]. congruence. }
    unfold load_GoogleGenAI.
    assert (forall e,
              sdk = ImportWithoutExport /\ e = MissingDependency
              \/ sdk = ImportFails e ->
              exists r h1,
              (Throw e : Result GeminiResponse, h) = (r, h1)
              /\ cache_inv h1 /\ cache_kept h h1 /\ console h1 = console h
              /\ randomDraws h1 = randomDraws h
              /\ (forall k, k ∈ constructed h1 -> k ∈ constructed h \/ k = key)
              /\ ((requests h1 = requests h
         /\ exists e, r = Throw e
                      /\ (sdk = ImportWithoutExport /\ e = MissingDependency
                          \/ sdk = ImportFails e))
                  \/ (requests h1 = requests h ++ [(key, prompt)]
                      /\ r = backend (length (requests h)) key prompt))) as Hfail.
    { intros e Hsdk. exists (Throw e), h. split; [reflexivity |].
      split; [repeat split; [exact Hnd | apply Hdom | apply Hdom | exact Hkey] |].
      split; [intros k c Hc; exact Hc |].
      split; [reflexivity |]. split; [reflexivity |]. split; [auto |].
      left. split; [reflexivity |]. exists e. split; [reflexivity | exact Hsdk]. }
    assert (exists r h1,
              (backend (length (requests h)) key prompt,
               {| aiClientCache := <[key := {| apiKey := key; serial := length (constructed h) |}]> (aiClientCache h);
                  constructed := constructed h ++ [key];
                  requests := requests h ++ [(key, prompt)];
                  console := console h; randomDraws := randomDraws h |}) = (r, h1)
              /\ cache_inv h1 /\ cache_kept h h1 /\ console h1 = console h
              /\ randomDraws h1 = randomDraws h
              /\ (forall k, k ∈ constructed h1 -> k ∈ constructed h \/ k = key)
              /\ ((requests h1 = requests h
         /\ exists e, r = Throw e
                      /\ (sdk = ImportWithoutExport /\ e = MissingDependency
                          \/ sdk = ImportFails e))
                  \/ (requests h1 = requests h ++ [(key, prompt)]
                      /\ r = backend (length (requests h)) key prompt))) as Hnew.
    { eexists _, _. split; [reflexivity |]. cbn [aiClientCache constructed requests console randomDraws].
      split.
      { repeat split; cbn [aiClientCache constructed requests console randomDraws].
        - apply NoDup_app. repeat split; [exact Hnd | | apply NoDup_singleton].
          intros x Hx Hx'. apply list_elem_of_singleton in Hx'. subst x. auto.
        - intros Hk. apply elem_of_app in Hk as [Hk | Hk].
          + apply Hdom in Hk as [c Hc].
            destruct (decide (key = k)) as [-> | Hne]; [congruence |].
            rewrite lookup_insert_ne by exact Hne. eauto.
          + apply list_elem_of_singleton in Hk. subst k.
            rewrite lookup_insert_eq. eauto.
        - intros Hsome. apply elem_of_app.
          destruct (decide (key = k)) as [-> | Hne].
          + right. apply list_elem_of_singleton. reflexivity.
          + left. apply Hdom. rewrite lookup_insert_ne in Hsome by exact Hne.
            exact Hsome.
        - intros k c Hc. destruct (decide (key = k)) as [-> | Hne].
          + rewrite lookup_insert_eq in Hc. injection Hc as <-. reflexivity.
          + rewrite lookup_insert_ne in Hc by exact Hne. eauto. }
      split.
      { intros k c Hc. cbn [aiClientCache].
        destruct (decide (key = k)) as [-> | Hne]; [congruence |].
        rewrite lookup_insert_ne by exact Hne. exact Hc. }
      repeat split; auto.
      intros k Hk. apply elem_of_app in Hk as [Hk | Hk]; [auto |].
      apply list_elem_of_singleton in Hk. auto. }
    destruct sdk as [| | |e] eqn:Hsdk; cbn.
    + exact Hnew.
    + exact Hnew.
    + apply Hfail. left. split; reflexivity.
    + apply Hfail. right. reflexivity.
Qed.

(** When the SDK loads, every scoring call sends its request. *)
Lemma attemptKey_sends (prompt key : jsstring) (h : Heap) :
  sdk = RequireOk \/ sdk = ImportOk ->
  cache_inv h ->
  exists h1,
    attemptKey prompt key h = (backend (length (requests h)) key prompt, h1)
    /\ requests h1 = requests h ++ [(key, prompt)]
    /\ cache_inv h1 /\ cache_kept h h1
    /\ console h1 = console h
    /\ randomDraws h1 = randomDraws h
    /\ (forall k, k ∈ constructed h1 -> k ∈ constructed h \/ k = key).
Proof.
  intros Hsdk Hinv.
  destruct (attemptKey_run prompt key h Hinv)
    as (r & h1 & Hrun & Hinv1 & Hkept1 & Hcon1 & Hrnd1 & Hnew1 & Hreq1).
  destruct Hreq1 as [(_ & e & _ & [[He _] | He]) | [Hreq1 Hr]].
  - destruct Hsdk; congruence.
  - destruct Hsdk; congruence.
  - exists h1. rewrite Hrun, Hr. auto 10.
Qed.

(** ** What the [catch] blocks print *)

(** [err.message || err] has a value for every caught value but
    [undefined] and [null], for which it throws a [TypeError]. *)
Lemma message_or_err_cases (err : JsError) :
  (message_or_err err = Ok err /\ err <> Thrown JUndefined /\ err <> Thrown JNull)
  \/ (message_or_err err = Throw TypeError
      /\ (err = Thrown JUndefined \/ err = Thrown JNull)).
Proof.
  destruct err as [| | | | | | tag | v];
    try (left; split; [reflexivity | split; discriminate]).
  destruct v; cbn;
    try (left; split; [reflexivity | split; discriminate]);
    right; split; auto.
Qed.

(** The error thrown on line 213 is never [undefined] or [null]. *)
Lemma lastError_or_failed_shown (lastError : option JsError) :
  message_or_err (lastError_or_failed lastError) = Ok (lastError_or_failed lastError).
Proof.
  destruct lastError as [[| | | | | | tag | v] |]; try reflexivity.
  destruct v as [| | [|] | n | [|c r] | items | fields]; cbn; try reflexivity.
  destruct (negb (n =? 0)); reflexivity.
Qed.

Lemma callGemini_loop_cons (prompt key : jsstring) (rest : list jsstring)
      (lastError : option JsError) (h h1 : Heap) (r : Result GeminiResponse) :
  attemptKey prompt key h = (r, h1) ->
  callGemini_loop prompt (key :: rest) lastError h
  = match r with
    | Ok result => (Ok result, h1)
    | Throw err =>
      match message_or_err err with
      | Ok shown =>
        callGemini_loop prompt rest (Some err)
          (logged h1 (GeminiKeyError (slice_last 4 key) shown))
      | Throw e => (Throw e, h1)
      end
    end.
Proof.
  intros Hrun. cbn [callGemini_loop]. run_M.
  rewrite Hrun. destruct r as [result | err]; [reflexivity |].
  destruct (message_or_err err); reflexivity.
Qed.

Lemma cache_inv_logged (h : Heap) (line : ConsoleLine) :
  cache_inv h -> cache_inv (logged h line).
Proof. intros Hinv. exact Hinv. Qed.

(** The trace of the loop when the SDK loads. [errs] are the rejections
    of the keys that failed and were logged, in pool order: the [i]-th of
    them is what the backend answered to the [i]-th request, sent with the
    [i]-th key. The loop then ends in one of three ways: the next key is
    answered, and that answer is returned; or there is no next key, and the
    last rejection is thrown (the generic error when it is falsy); or the
    next key is rejected with [undefined] or [null], the [catch] itself
    throws a [TypeError], and the keys after it are not asked. *)
Lemma callGemini_loop_trace (prompt : jsstring) (keys : list jsstring) :
  forall (lastError : option JsError) (h : Heap),
  sdk = RequireOk \/ sdk = ImportOk ->
  cache_inv h ->
  exists (errs : list JsError) res h',
    callGemini_loop prompt keys lastError h = (res, h')
    /\ (length errs <= length keys)%nat
    /\ (forall i k e, keys !! i = Some k -> errs !! i = Some e ->
          backend (length (requests h) + i) k prompt = Throw e
          /\ message_or_err e = Ok e)
    /\ console h' = console h ++ keyErrorLines keys errs
    /\ cache_inv h' /\ cache_kept h h'
    /\ randomDraws h' = randomDraws h
    /\ (forall k, k ∈ constructed h' -> k ∈ constructed h \/ k ∈ keys)
    /\ match res with
       | Ok resp =>
         exists key,
           keys !! length errs = Some key
           /\ backend (length (requests h) + length errs) key prompt = Ok resp
           /\ requests h'
              = requests h ++ requestsFor prompt (take (S (length errs)) keys)
       | Throw e =>
         (length errs = length keys
          /\ e = lastError_or_failed
                   (match last errs with Some e' => Some e' | None => lastError end)
          /\ requests h' = requests h ++ requestsFor prompt keys)
         \/ (exists key err,
               keys !! length errs = Some key
               /\ backend (length (requests h) + length errs) key prompt = Throw err
               /\ (err = Thrown JUndefined \/ err = Thrown JNull)
               /\ e = TypeError
               /\ requests h'
                  = requests h ++ requestsFor prompt (take (S (length errs)) keys))
       end.
Proof.
  induction keys as [|key rest IH]; intros lastError h Hsdk Hinv.
  - exists [], (Throw (lastError_or_failed lastError)), h.
    split; [reflexivity |]. split; [reflexivity |].
    split; [intros i k e Hk; rewrite lookup_nil in Hk; discriminate |].
    split; [symmetry; apply app_nil_r |].
    split; [exact Hinv |]. split; [intros k c Hc; exact Hc |].
    split; [reflexivity |]. split; [auto |].
    left. split; [reflexivity |]. split; [reflexivity |].
    symmetry. apply app_nil_r.
  - destruct (attemptKey_sends prompt key h Hsdk Hinv)
      as (h1 & Hrun & Hreq1 & Hinv1 & Hkept1 & Hcon1 & Hrnd1 & Hnew1).
    rewrite (callGemini_loop_cons _ _ _ _ _ _ _ Hrun).
    assert (forall k, k ∈ constructed h1 -> k ∈ constructed h \/ k ∈ key :: rest)
      as Hnew1'.
    { intros k Hk. destruct (Hnew1 k Hk) as [? | ->]; [auto |].
      right. apply list_elem_of_here. }
    destruct (backend (length (requests h)) key prompt) as [resp | err] eqn:Hback.
    + (* this key is answered *)
      exists [], (Ok resp), h1. split; [reflexivity |].
      split; [cbn; lia |].
      split; [intros i k e _ He; rewrite lookup_nil in He; discriminate |].
      split; [rewrite Hcon1; symmetry; apply app_nil_r |].
      split; [exact Hinv1 |]. split; [exact Hkept1 |]. split; [exact Hrnd1 |].
      split; [exact Hnew1' |].
      exists key. split; [reflexivity |].
      split; [rewrite Nat.add_0_r; exact Hback |]. exact Hreq1.
    + destruct (message_or_err_cases err) as [[Hshown _] | [Hthrows Hnullish]].
      * (* this key is rejected: the rejection is logged, the loop goes on *)
        rewrite Hshown.
        destruct (IH (Some err) (logged h1 (GeminiKeyError (slice_last 4 key) err))
                     Hsdk (cache_inv_logged _ _ Hinv1))
          as (errs & res & h' & Hloop & Hlen & Herrs & Hcon & Hinv' & Hkept'
              & Hrnd' & Hnew' & Hres).
        cbn [logged requests console randomDraws constructed] in Herrs, Hcon, Hrnd',
          Hnew', Hres.
        assert (length (requests h1) = S (length (requests h))) as Hn.
        { rewrite Hreq1, length_app. cbn. lia. }
        exists (err :: errs), res, h'. split; [exact Hloop |].
        split; [cbn; lia |].
        split.
        { intros [|i] k e Hk He.
          - injection Hk as <-. injection He as <-.
            rewrite Nat.add_0_r. split; [exact Hback | exact Hshown].
          - destruct (Herrs i k e Hk He) as [Hb Hs]. split; [| exact Hs].
            rewrite <- Hb, Hn. f_equal. lia. }
        split.
        { rewrite Hcon, Hcon1. cbn [keyErrorLines zip_with].
          rewrite <- app_assoc. reflexivity. }
        split; [exact Hinv' |].
        split; [intros k c Hc; apply Hkept', Hkept1; exact Hc |].
        split; [congruence |].
        split.
        { intros k Hk. destruct (Hnew' k Hk) as [Hk1 | Hk1].
          - apply Hnew1'. exact Hk1.
          - right. apply list_elem_of_further. exact Hk1. }
        destruct res as [resp | e].
        -- destruct Hres as (key' & Hk' & Hb' & Hr').
           exists key'. cbn [length]. split; [exact Hk' |].
           split; [rewrite <- Hb', Hn; f_equal; lia |].
           rewrite Hr', Hreq1, <- app_assoc. reflexivity.
        -- destruct Hres as [(Hall & He & Hr') | (key' & err' & Hk' & Hb' & Hnull' & He & Hr')].
           ++ left. split; [cbn; lia |].
              split.
              { rewrite He, last_cons. destruct (last errs); reflexivity. }
              rewrite Hr', Hreq1, <- app_assoc. reflexivity.
           ++ right. exists key', err'. cbn [length]. split; [exact Hk' |].
              split; [rewrite <- Hb', Hn; f_equal; lia |].
              split; [exact Hnull' |]. split; [exact He |].
              rewrite Hr', Hreq1, <- app_assoc. reflexivity.
      * (* this key is rejected with [undefined] or [null]: the loop is left *)
        rewrite Hthrows.
        exists [], (Throw TypeError), h1. split; [reflexivity |].
        split; [cbn; lia |].
        split; [intros i k e _ He; rewrite lookup_nil in He; discriminate |].
        split; [rewrite Hcon1; symmetry; apply app_nil_r |].
        split; [exact Hinv1 |]. split; [exact Hkept1 |]. split; [exact Hrnd1 |].
        split; [exact Hnew1' |].
        right. exists key, err. split; [reflexivity |].
        split; [rewrite Nat.add_0_r; exact Hback |].
        split; [exact Hnullish |]. split; [reflexivity | exact Hreq1].
Qed.

(** What the loop throws is never [undefined] or [null], whatever the
    SDK and the backend do. *)
Lemma callGemini_loop_throws (prompt : jsstring) (keys : list jsstring) :
  forall (lastError : option JsError) (h h' : Heap) (e : JsError),
  callGemini_loop prompt keys lastError h = (Throw e, h') ->
  message_or_err e = Ok e.
Proof.
  induction keys as [|key rest IH]; intros lastError h h' e.
  - cbn [callGemini_loop]. unfold throw, lift. intros [= <- _].
    apply lastError_or_failed_shown.
  - destruct (attemptKey prompt key h) as [r h1] eqn:Hrun.
    rewrite (callGemini_loop_cons _ _ _ _ _ _ _ Hrun).
    destruct r as [resp | err]; [discriminate |].
    destruct (message_or_err_cases err) as [[-> _] | [-> _]].
    + apply IH.
    + intros [= <- _]. reflexivity.
Qed.

Lemma getClientForKey_cached (key : jsstring) (client : Client) (h : Heap) :
  aiClientCache h !! key = Some client ->
  getClientForKey key h = (Ok client, h).
Proof.
  intros Hlook. unfold getClientForKey. run_M. rewrite Hlook.
  reflexivity.
Qed.

Lemma callGemini_unfold (decision : jsstring) (context : Context) (h : Heap)
      (pool : list jsstring) :
  getApiKeys = Ok pool ->
  callGemini decision context h
  = callGemini_loop (buildGeminiPrompt decision context) pool None h.
Proof.
  intros Hpool. unfold callGemini. run_M. rewrite Hpool.
  reflexivity.
Qed.

Lemma callGemini_no_keys (decision : jsstring) (context : Context) (h : Heap)
      (e : JsError) :
  getApiKeys = Throw e ->
  callGemini decision context h = (Throw e, h).
Proof.
  intros Hpool. unfold callGemini. run_M. rewrite Hpool.
  reflexivity.
Qed.

(** What [callGemini] throws is never [undefined] or [null]. *)
Lemma callGemini_throws (decision : jsstring) (context : Context) (h h' : Heap)
      (e : JsError) :
  callGemini decision context h = (Throw e, h') ->
  message_or_err e = Ok e.
Proof.
  destruct getApiKeys as [pool | e0] eqn:Hpool.
  - rewrite (callGemini_unfold _ _ _ _ Hpool). apply callGemini_loop_throws.
  - rewrite (callGemini_no_keys _ _ _ _ Hpool). intros [= <- _].
    unfold getApiKeys in Hpool.
    destruct (decide (length (take 6 _) = 0%nat)); [| discriminate].
    injection Hpool as <-. reflexivity.
Qed.

(** One call, when the SDK loads: [callGemini] visits the configured
    keys (at most six) in their order, one request each; it returns the
    answer to the first key that is answered; it throws the last rejection
    when every key was rejected, and a [TypeError], with the keys after it
    not asked, when a key is rejected with [undefined] or [null]. Handles
    are made at most once per key, only for keys of the pool, and stay in
    the cache. *)
Lemma callGemini_visits (decision : jsstring) (context : Context)
      (h : Heap) (pool : list jsstring) :
  getApiKeys = Ok pool ->
  sdk = RequireOk \/ sdk = ImportOk ->
  cache_inv h ->
  let prompt := buildGeminiPrompt decision context in
  (0 < length pool <= 6)%nat
  /\ exists (errs : list JsError) res h',
       callGemini decision context h = (res, h')
       /\ (length errs <= length pool)%nat
       /\ (forall i k e, pool !! i = Some k -> errs !! i = Some e ->
             backend (length (requests h) + i) k prompt = Throw e
             /\ message_or_err e = Ok e)
       /\ console h' = console h ++ keyErrorLines pool errs
       /\ match res with
          | Ok resp =>
            exists key,
              pool !! length errs = Some key
              /\ backend (length (requests h) + length errs) key prompt = Ok resp
              /\ requests h'
                 = requests h ++ requestsFor prompt (take (S (length errs)) pool)
          | Throw e =>
            (length errs = length pool
             /\ (exists e', last errs = Some e'
                            /\ e = lastError_or_failed (Some e'))
             /\ requests h' = requests h ++ requestsFor prompt pool)
            \/ (exists key err,
                  pool !! length errs = Some key
                  /\ backend (length (requests h) + length errs) key prompt
                     = Throw err
                  /\ (err = Thrown JUndefined \/ err = Thrown JNull)
                  /\ e = TypeError
                  /\ requests h'
                     = requests h
                       ++ requestsFor prompt (take (S (length errs)) pool))
          end
       /\ cache_inv h' /\ cache_kept h h'
       /\ (forall k, k ∈ constructed h' -> k ∈ constructed h \/ k ∈ pool)
       /\ (forall k c, aiClientCache h' !! k = Some c ->
             getClientForKey k h' = (Ok c, h')).
Proof.
  intros Hpool Hsdk Hinv prompt.
  destruct (getApiKeys_pool pool Hpool) as [Hlen _].
  split; [exact Hlen |].
  destruct (callGemini_loop_trace prompt pool None h Hsdk Hinv)
    as (errs & res & h' & Hloop & Hle & Herrs & Hcon & Hinv' & Hkept & _
        & Hnew & Hres).
  exists errs, res, h'.
  split; [rewrite (callGemini_unfold _ _ _ _ Hpool); exact Hloop |].
  split; [exact Hle |]. split; [exact Herrs |]. split; [exact Hcon |].
  split.
  { destruct res as [resp | e]; [exact Hres |].
    destruct Hres as [(Hall & He & Hreq) | Habort]; [left | right; exact Habort].
    split; [exact Hall |]. split; [| exact Hreq].
    destruct (last errs) as [e' |] eqn:Hlast; [eauto |].
    apply last_None in Hlast. subst errs. cbn in Hall. lia. }
  split; [exact Hinv' |]. split; [exact Hkept |]. split; [exact Hnew |].
  intros k c Hc. apply getClientForKey_cached. exact Hc.
Qed.

(** ** The response parser *)

Lemma upToLast_None (c : N) (s : jsstring) :
  upToLast c s = None -> c ∉ s.
Proof.
  induction s as [|d r IH]; cbn [upToLast]; intros Hnone.
  - apply not_elem_of_nil.
  - destruct (upToLast c r) as [p|]; [discriminate |].
    destruct (N.eqb_spec d c) as [|Hne]; [discriminate |].
    apply not_elem_of_cons. split; [congruence | auto].
Qed.

Lemma upToLast_Some (c : N) (s p : jsstring) :
  upToLast c s = Some p ->
  exists q rest, p = q ++ [c] /\ s = p ++ rest /\ c ∉ rest.
Proof.
  revert p. induction s as [|d r IH]; cbn [upToLast]; intros p Hp; [discriminate |].
  destruct (upToLast c r) as [p'|] eqn:Hr.
  - injection Hp as <-. destruct (IH p' eq_refl) as (q & rest & -> & -> & Hrest).
    exists (d :: q), rest. repeat split; auto.
  - destruct (N.eqb_spec d c) as [-> |]; [| discriminate].
    injection Hp as <-. exists [], r. repeat split. apply upToLast_None. exact Hr.
Qed.

Lemma upToLast_complete (c : N) (b rest : jsstring) :
  c ∉ rest -> upToLast c (b ++ c :: rest) = Some (b ++ [c]).
Proof.
  intros Hrest. induction b as [|d b IH]; cbn [app upToLast].
  - destruct (upToLast c rest) as [p|] eqn:Hp.
    + apply upToLast_Some in Hp as (q & rest' & -> & -> & _).
      exfalso. apply Hrest. rewrite <- app_assoc.
      apply elem_of_app. right. apply list_elem_of_here.
    + rewrite N.eqb_refl. reflexivity.
  - rewrite IH. reflexivity.
Qed.

(** The match runs from the first [{] to the last [}]. *)
Lemma matchJsonObject_complete (a b c : jsstring) :
  123%N ∉ a -> 125%N ∉ c ->
  matchJsonObject (a ++ 123%N :: b ++ 125%N :: c) = Some (123%N :: b ++ [125%N]).
Proof.
  intros Ha Hc. induction a as [|d a IH]; cbn [app matchJsonObject].
  - rewrite N.eqb_refl, upToLast_complete by exact Hc. reflexivity.
  - apply not_elem_of_cons in Ha as [Hd Ha].
    destruct (N.eqb_spec d 123) as [|_]; [congruence |]. auto.
Qed.

Lemma matchJsonObject_Some (s m : jsstring) :
  matchJsonObject s = Some m ->
  exists a b c, s = a ++ 123%N :: b ++ 125%N :: c.
Proof.
  induction s as [|d r IH]; cbn [matchJsonObject]; intros Hm; [discriminate |].
  destruct (N.eqb_spec d 123) as [-> | Hne].
  - destruct (upToLast 125 r) as [p|] eqn:Hp.
    + apply upToLast_Some in Hp as (q & rest & -> & -> & _).
      exists [], q, rest. rewrite <- app_assoc. reflexivity.
    + destruct (IH Hm) as (a & b & c & ->). exists (123%N :: a), b, c. reflexivity.
  - destruct (IH Hm) as (a & b & c & ->). exists (d :: a), b, c. reflexivity.
Qed.

(** The three reads of lines 236-238 on a parsed value that is not
    [null]. *)
Lemma getProp_total (v : JsValue) (name : jsstring) :
  v <> JNull -> v <> JUndefined -> exists x, getProp v name = Ok x.
Proof. intros Hn Hu. destruct v; cbn; eauto; congruence. Qed.

Lemma parseGeminiResult_unfold (resp : GeminiResponse) (raw : jsstring) :
  responseText resp = Ok raw ->
  parseGeminiResult resp
  = let text := trim raw in
    if negb (nonEmpty text) then Throw EmptyResponse else
    match JSON_parse (default text (matchJsonObject text)) with
    | None => Throw NotJson
    | Some parsed =>
      c ← getProp parsed (utf16 "change");
      cm ← getProp parsed (utf16 "comment");
      t ← getProp parsed (utf16 "tips");
      Ok {| parsed_change := match c with JNum n => n | _ => 0 end;
            parsed_comment := js_or cm (JStr []);
            parsed_tips := match t with JArr items => items | _ => [] end |}
    end.
Proof.
  intros Hraw. unfold parseGeminiResult. rewrite Hraw. reflexivity.
Qed.

(** The parser, case by case. A response of no known shape, or whose
    text trims to nothing, fails with the empty-response error; an accessor
    that throws fails with what it threw. Otherwise the JSON text is the
    stretch from the first opening brace to the last closing brace, or the
    whole trimmed text when there is no such stretch; a text that does not
    parse fails with the not-JSON error; a parsed [null] makes the first
    property read fail with a TypeError; any other parsed value yields
    change (0 unless the field is a number), comment (the empty string
    unless the field is truthy) and tips (empty unless the field is an
    array). *)
Lemma parseGeminiResult_cases (resp : GeminiResponse) :
  (resp = RespOther -> parseGeminiResult resp = Throw EmptyResponse)
  /\ (forall e, responseText resp = Throw e -> parseGeminiResult resp = Throw e)
  /\ (forall raw, responseText resp = Ok raw ->
      let text := trim raw in
      let jsonText := default text (matchJsonObject text) in
      (text = [] -> parseGeminiResult resp = Throw EmptyResponse)
      /\ (forall a b c, text = a ++ 123%N :: b ++ 125%N :: c ->
            123%N ∉ a -> 125%N ∉ c -> jsonText = 123%N :: b ++ [125%N])
      /\ ((~ exists a b c, text = a ++ 123%N :: b ++ 125%N :: c) -> jsonText = text)
      /\ (text <> [] -> JSON_parse jsonText = None ->
            parseGeminiResult resp = Throw NotJson)
      /\ (text <> [] -> JSON_parse jsonText = Some JNull ->
            parseGeminiResult resp = Throw TypeError)
      /\ (forall parsed, text <> [] -> JSON_parse jsonText = Some parsed ->
            parsed <> JNull -> parsed <> JUndefined ->
            exists c cm t,
              getProp parsed (utf16 "change") = Ok c
              /\ getProp parsed (utf16 "comment") = Ok cm
              /\ getProp parsed (utf16 "tips") = Ok t
              /\ parseGeminiResult resp
                 = Ok {| parsed_change := match c with JNum n => n | _ => 0 end;
                         parsed_comment := if truthy cm then cm else JStr [];
                         parsed_tips := match t with JArr items => items | _ => [] end |})).
Proof.
  split; [intros ->; reflexivity |].
  split; [intros e He; unfold parseGeminiResult; rewrite He; reflexivity |].
  intros raw Hraw. rewrite (parseGeminiResult_unfold _ _ Hraw). cbv zeta.
  set (text := trim raw). set (jsonText := default text (matchJsonObject text)).
  split; [intros ->; reflexivity |].
  split.
  { intros a b c Htext Ha Hc. subst jsonText.
    rewrite Htext, matchJsonObject_complete by assumption. reflexivity. }
  split.
  { intros Hno. subst jsonText. destruct (matchJsonObject text) as [m|] eqn:Hm.
    - exfalso. apply Hno. eapply matchJsonObject_Some. exact Hm.
    - reflexivity. }
  assert (forall X : Result Parsed,
            text <> [] -> (if negb (nonEmpty text) then Throw EmptyResponse else X) = X)
    as Hne.
  { intros X Ht. destruct text; [congruence | reflexivity]. }
  split; [intros Ht Hp; rewrite Hne, Hp by exact Ht; reflexivity |].
  split; [intros Ht Hp; rewrite Hne, Hp by exact Ht; reflexivity |].
  intros parsed Ht Hp Hnull Hundef. rewrite Hne, Hp by exact Ht.
  destruct (getProp_total parsed (utf16 "change") Hnull Hundef) as [c Hc].
  destruct (getProp_total parsed (utf16 "comment") Hnull Hundef) as [cm Hcm].
  destruct (getProp_total parsed (utf16 "tips") Hnull Hundef) as [t Htips].
  exists c, cm, t. rewrite Hc, Hcm, Htips. repeat split; reflexivity.
Qed.

(** ** The orchestrator *)

Lemma evaluateDecision_screened (decision : jsstring) (context : Context) (h : Heap) :
  existsb (includes (toLowerCase decision)) VIOLATION_KEYWORDS = true ->
  evaluateDecision decision context h = (Ok violationResult, h).
Proof. intros E. unfold evaluateDecision. rewrite E. reflexivity. Qed.

Lemma evaluateDecision_scored (decision : jsstring) (context : Context)
      (h h1 : Heap) (resp : GeminiResponse) (parsed : Parsed) :
  existsb (includes (toLowerCase decision)) VIOLATION_KEYWORDS = false ->
  callGemini decision context h = (Ok resp, h1) ->
  parseGeminiResult resp = Ok parsed ->
  evaluateDecision decision context h = (Ok (resultOfParsed parsed), h1).
Proof.
  intros E Hcall Hparse. unfold evaluateDecision, resultOfParsed. rewrite E.
  run_M.
  rewrite Hcall, Hparse. destruct (parsed_change parsed <=? -10000); reflexivity.
Qed.

(** The [catch] of lines 279-282, on what the scoring call or the parser
    threw. *)
Lemma evaluateDecision_caught (decision : jsstring) (context : Context)
      (h h1 : Heap) (err : JsError) :
  existsb (includes (toLowerCase decision)) VIOLATION_KEYWORDS = false ->
  (callGemini decision context h = (Throw err, h1)
   \/ exists resp, callGemini decision context h = (Ok resp, h1)
                   /\ parseGeminiResult resp = Throw err) ->
  evaluateDecision decision context h
  = match message_or_err err with
    | Ok shown => localHeuristic decision (logged h1 (ScoringFailed shown))
    | Throw e => (Throw e, h1)
    end.
Proof.
  intros E Hfail. unfold evaluateDecision. rewrite E. run_M.
  destruct Hfail as [Hcall | (resp & Hcall & Hparse)].
  - rewrite Hcall. destruct (message_or_err err); reflexivity.
  - rewrite Hcall, Hparse. destruct (message_or_err err); reflexivity.
Qed.

Lemma evaluateDecision_call_failed (decision : jsstring) (context : Context)
      (h h1 : Heap) (err : JsError) :
  existsb (includes (toLowerCase decision)) VIOLATION_KEYWORDS = false ->
  callGemini decision context h = (Throw err, h1) ->
  evaluateDecision decision context h
  = localHeuristic decision (logged h1 (ScoringFailed err)).
Proof.
  intros E Hcall.
  rewrite (evaluateDecision_caught _ _ _ h1 err E (or_introl Hcall)).
  rewrite (callGemini_throws _ _ _ _ _ Hcall). reflexivity.
Qed.

Lemma evaluateDecision_parse_failed (decision : jsstring) (context : Context)
      (h h1 : Heap) (resp : GeminiResponse) (err : JsError) :
  existsb (includes (toLowerCase decision)) VIOLATION_KEYWORDS = false ->
  callGemini decision context h = (Ok resp, h1) ->
  parseGeminiResult resp = Throw err ->
  message_or_err err = Ok err ->
  evaluateDecision decision context h
  = localHeuristic decision (logged h1 (ScoringFailed err)).
Proof.
  intros E Hcall Hparse Hshown.
  rewrite (evaluateDecision_caught _ _ _ h1 err E
             (or_intror (ex_intro _ resp (conj Hcall Hparse)))).
  rewrite Hshown. reflexivity.
Qed.

(** When the parser throws [undefined] or [null], the [catch] throws in
    its turn, before anything is logged or drawn. *)
Lemma evaluateDecision_parse_threw_nullish (decision : jsstring) (context : Context)
      (h h1 : Heap) (resp : GeminiResponse) (err : JsError) :
  existsb (includes (toLowerCase decision)) VIOLATION_KEYWORDS = false ->
  callGemini decision context h = (Ok resp, h1) ->
  parseGeminiResult resp = Throw err ->
  message_or_err err = Throw TypeError ->
  evaluateDecision decision context h = (Throw TypeError, h1).
Proof.
  intros E Hcall Hparse Hthrows.
  rewrite (evaluateDecision_caught _ _ _ h1 err E
             (or_intror (ex_intro _ resp (conj Hcall Hparse)))).
  rewrite Hthrows. reflexivity.
Qed.

(** The parser throws a value that is not an [Error] object only when
    the response accessor threw it. *)
Lemma parseGeminiResult_throws_value (resp : GeminiResponse) (v : JsValue) :
  parseGeminiResult resp = Throw (Thrown v) ->
  resp = RespAccessor (Throw (Thrown v)).
Proof.
  destruct (responseText resp) as [raw | e] eqn:Hraw.
  - rewrite (parseGeminiResult_unfold _ _ Hraw). cbv zeta.
    destruct (negb (nonEmpty (trim raw))); [discriminate |].
    destruct (JSON_parse _) as [parsed |]; [| discriminate].
    destruct parsed; cbn; discriminate.
  - unfold parseGeminiResult. rewrite Hraw. cbn. intros [= ->].
    destruct resp; cbn in Hraw; try discriminate. congruence.
Qed.

Lemma wellFormed_violationResult : wellFormed violationResult.
Proof. reflexivity. Qed.

Lemma wellFormed_resultOfParsed (parsed : Parsed) : wellFormed (resultOfParsed parsed).
Proof.
  unfold resultOfParsed, wellFormed.
  destruct (parsed_change parsed <=? -10000); cbn [violation change].
  - reflexivity.
  - apply clamp_bounds. lia.
Qed.

Lemma wellFormed_localHeuristic_with (r : Z) (decision : jsstring) :
  wellFormed (localHeuristic_with r decision).
Proof.
  unfold localHeuristic_with, wellFormed.
  destruct (existsb (includes (toLowerCase decision)) VIOLATION_KEYWORDS);
    cbn [violation change violationResult]; [reflexivity |].
  pose proof (clamp_bounds (heuristicScore (toLowerCase decision) * 50
                            + (r - 2) * 20) (-150) 300) as Hb.
  lia.
Qed.

(** Every run of the orchestrator ends in one of four ways: the
    screening result; the model's score; the fallback scorer's result,
    after the failure was logged; or a [TypeError], thrown by the [catch]
    of lines 279-282 when the response accessor threw [undefined] or
    [null]. *)
Lemma evaluateDecision_cases (decision : jsstring) (context : Context) (h : Heap) :
  (existsb (includes (toLowerCase decision)) VIOLATION_KEYWORDS = true
   /\ evaluateDecision decision context h = (Ok violationResult, h))
  \/ (exists resp parsed h1,
        callGemini decision context h = (Ok resp, h1)
        /\ parseGeminiResult resp = Ok parsed
        /\ evaluateDecision decision context h = (Ok (resultOfParsed parsed), h1))
  \/ (exists err h1 h',
        existsb (includes (toLowerCase decision)) VIOLATION_KEYWORDS = false
        /\ (callGemini decision context h = (Throw err, h1)
            \/ exists resp, callGemini decision context h = (Ok resp, h1)
                            /\ parseGeminiResult resp = Throw err)
        /\ message_or_err err = Ok err
        /\ evaluateDecision decision context h
           = (Ok (localHeuristic_with (floorRandom7 (randomDraws h1)) decision), h')
        /\ requests h' = requests h1
        /\ console h' = console h1 ++ [ScoringFailed err])
  \/ (exists err h1,
        existsb (includes (toLowerCase decision)) VIOLATION_KEYWORDS = false
        /\ callGemini decision context h = (Ok (RespAccessor (Throw err)), h1)
        /\ (err = Thrown JUndefined \/ err = Thrown JNull)
        /\ evaluateDecision decision context h = (Throw TypeError, h1)).
Proof.
  destruct (existsb (includes (toLowerCase decision)) VIOLATION_KEYWORDS) eqn:E.
  { left. split; [reflexivity |]. apply evaluateDecision_screened. exact E. }
  right.
  destruct (callGemini decision context h) as [[resp | err] h1] eqn:Hcall.
  - destruct (parseGeminiResult resp) as [parsed | err] eqn:Hparse.
    + left. exists resp, parsed, h1. split; [reflexivity |]. split; [exact Hparse |].
      eapply evaluateDecision_scored; eassumption.
    + right.
      destruct (message_or_err_cases err) as [[Hshown _] | [Hthrows Hnullish]].
      * left.
        destruct (localHeuristic_run decision (logged h1 (ScoringFailed err)))
          as (h' & Hrun & _ & _ & Hreq & Hcon).
        exists err, h1, h'. split; [reflexivity |].
        split; [right; exists resp; split; [reflexivity | exact Hparse] |].
        split; [exact Hshown |].
        split; [| split; [exact Hreq | exact Hcon]].
        rewrite (evaluateDecision_parse_failed _ _ _ _ _ _ E Hcall Hparse Hshown).
        exact Hrun.
      * right. exists err, h1. split; [reflexivity |].
        assert (resp = RespAccessor (Throw err)) as ->.
        { destruct Hnullish as [-> | ->];
            apply parseGeminiResult_throws_value; exact Hparse. }
        split; [reflexivity |]. split; [exact Hnullish |].
        eapply evaluateDecision_parse_threw_nullish; eassumption.
  - right. left.
    destruct (localHeuristic_run decision (logged h1 (ScoringFailed err)))
      as (h' & Hrun & _ & _ & Hreq & Hcon).
    exists err, h1, h'. split; [reflexivity |]. split; [left; reflexivity |].
    split; [exact (callGemini_throws _ _ _ _ _ Hcall) |].
    split; [| split; [exact Hreq | exact Hcon]].
    rewrite (evaluateDecision_call_failed _ _ _ _ _ E Hcall). exact Hrun.
Qed.

(** A run of the orchestrator returns a well-formed result, or throws a
    [TypeError] and nothing else. *)
Lemma evaluateDecision_outcome (decision : jsstring) (context : Context)
      (h : Heap) :
  exists r h',
    evaluateDecision decision context h = (r, h')
    /\ match r with
       | Ok res => wellFormed res
       | Throw e => e = TypeError
       end.
Proof.
  destruct (evaluateDecision_cases decision context h)
    as [[E Hev] | [(resp & parsed & h1 & Hcall & Hparse & Hev)
                  | [(err & h1 & h' & E & Hfail & Hshown & Hev & _)
                    | (err & h1 & E & Hcall & Hnullish & Hev)]]].
  - eexists _, _. split; [exact Hev | apply wellFormed_violationResult].
  - eexists _, _. split; [exact Hev | apply wellFormed_resultOfParsed].
  - eexists _, _. split; [exact Hev | apply wellFormed_localHeuristic_with].
  - eexists _, _. split; [exact Hev | reflexivity].
Qed.

(** The orchestrator returns whenever the response accessor does not
    throw [undefined] or [null]: every other failure of the scoring call
    or of the parsing is caught, logged and answered by the fallback
    scorer. *)
Lemma evaluateDecision_returns (decision : jsstring) (context : Context)
      (h : Heap) :
  (forall h1 err,
     callGemini decision context h = (Ok (RespAccessor (Throw err)), h1) ->
     err <> Thrown JUndefined /\ err <> Thrown JNull) ->
  exists res h', evaluateDecision decision context h = (Ok res, h') /\ wellFormed res.
Proof.
  intros Hsafe.
  destruct (evaluateDecision_cases decision context h)
    as [[E Hev] | [(resp & parsed & h1 & Hcall & Hparse & Hev)
                  | [(err & h1 & h' & E & Hfail & Hshown & Hev & _)
                    | (err & h1 & E & Hcall & Hnullish & Hev)]]].
  - eexists _, _. split; [exact Hev | apply wellFormed_violationResult].
  - eexists _, _. split; [exact Hev | apply wellFormed_resultOfParsed].
  - eexists _, _. split; [exact Hev | apply wellFormed_localHeuristic_with].
  - exfalso. destruct (Hsafe h1 err Hcall) as [Hu Hn].
    destruct Hnullish; contradiction.
Qed.

(** C2. When a violation keyword is a substring of the lower-cased
    decision, the orchestrator returns the fixed violation result
    (violation, change -10000) and leaves the heap as it was: no request is
    sent, no key is read, no handle is made. *)
Theorem evaluateDecision_keyword_violation (decision : jsstring) (context : Context)
        (h : Heap) (kw a b : jsstring) :
  In kw VIOLATION_KEYWORDS ->
  toLowerCase decision = a ++ kw ++ b ->
  exists res,
    evaluateDecision decision context h = (Ok res, h)
    /\ res = violationResult
    /\ violation res = true
    /\ change res = -10000.
Proof.
  intros Hin Hsub. exists violationResult.
  split; [| repeat split].
  apply evaluateDecision_screened, screening_spec. eauto.
Qed.

(** C3. When the call and the parsing succeed, a parsed change of at
    most -10000 gives a violation with change -10000 that keeps the
    model's comment when it is truthy (the fixed comment otherwise);
    any other parsed change gives a non-violation whose change is the
    parsed one clamped to [-400, 400]: the parsed change itself when it
    lies between -400 and 400, -400 when it is smaller and 400 when it is
    larger. Hence whenever the orchestrator returns a non-violation, by the
    model or by the fallback scorer, its change lies in [-400, 400]. *)
Theorem evaluateDecision_scoring (decision : jsstring) (context : Context) (h : Heap) :
  (forall resp parsed h1,
     existsb (includes (toLowerCase decision)) VIOLATION_KEYWORDS = false ->
     callGemini decision context h = (Ok resp, h1) ->
     parseGeminiResult resp = Ok parsed ->
     exists res,
       evaluateDecision decision context h = (Ok res, h1)
       /\ tips res = parsed_tips parsed
       /\ (parsed_change parsed <= -10000 ->
           violation res = true /\ change res = -10000
           /\ (truthy (parsed_comment parsed) = true ->
               comment res = parsed_comment parsed)
           /\ (truthy (parsed_comment parsed) = false ->
               comment res = JStr VIOLATION_COMMENT))
       /\ (-10000 < parsed_change parsed ->
           violation res = false
           /\ (parsed_change parsed < -400 -> change res = -400)
           /\ (-400 <= parsed_change parsed <= 400 ->
               change res = parsed_change parsed)
           /\ (400 < parsed_change parsed -> change res = 400)
           /\ -400 <= change res <= 400
           /\ (truthy (parsed_comment parsed) = true ->
               comment res = parsed_comment parsed)
           /\ (truthy (parsed_comment parsed) = false ->
               comment res = JStr [])))
  /\ (forall res h',
        evaluateDecision decision context h = (Ok res, h') ->
        violation res = false ->
        -400 <= change res <= 400)
  /\ (forall r,
        violation (localHeuristic_with r decision) = false ->
        -150 <= change (localHeuristic_with r decision) <= 300).
Proof.
  split; [| split].
  - intros resp parsed h1 E Hcall Hparse. exists (resultOfParsed parsed).
    split; [eapply evaluateDecision_scored; eassumption |].
    unfold resultOfParsed.
    destruct (Z.leb_spec (parsed_change parsed) (-10000)) as [Hle | Hgt];
      cbn [violation change comment tips].
    + split; [reflexivity |]. split; [| lia].
      intros _. split; [reflexivity |]. split; [reflexivity |].
      unfold js_or. split; intros ->; reflexivity.
    + split; [reflexivity |]. split; [lia |].
      intros _. unfold clamp. split; [reflexivity |].
      split; [lia |]. split; [lia |]. split; [lia |]. split; [lia |].
      unfold js_or. split; intros ->; reflexivity.
  - intros res h' Hev Hviol.
    destruct (evaluateDecision_outcome decision context h) as (r0 & h0 & Hev0 & Hwf).
    rewrite Hev in Hev0. injection Hev0 as <- <-.
    unfold wellFormed in Hwf. rewrite Hviol in Hwf. exact Hwf.
  - intros r Hviol. unfold localHeuristic_with in *.
    destruct (existsb (includes (toLowerCase decision)) VIOLATION_KEYWORDS);
      [discriminate |].
    cbn [change]. apply clamp_bounds. lia.
Qed.

(** C9, as the code has it. When no credential is configured,
    [getApiKeys] throws its not-set error on the scoring call; on a
    decision that passes the screening the orchestrator logs that error
    and returns the fallback scorer's result, well-formed, without any
    request to the backend. *)
Theorem evaluateDecision_without_credentials (decision : jsstring)
        (context : Context) (h : Heap) (e : JsError) :
  getApiKeys = Throw e ->
  existsb (includes (toLowerCase decision)) VIOLATION_KEYWORDS = false ->
  e = NoApiKey
  /\ callGemini decision context h = (Throw NoApiKey, h)
  /\ exists h',
       evaluateDecision decision context h
       = (Ok (localHeuristic_with (floorRandom7 (randomDraws h)) decision), h')
       /\ wellFormed (localHeuristic_with (floorRandom7 (randomDraws h)) decision)
       /\ requests h' = requests h
       /\ console h' = console h ++ [ScoringFailed NoApiKey].
Proof.
  intros Hkeys E.
  assert (e = NoApiKey) as ->.
  { unfold getApiKeys in Hkeys.
    destruct (decide (length (take 6 _) = 0%nat)); congruence. }
  split; [reflexivity |].
  pose proof (callGemini_no_keys decision context h _ Hkeys) as Hcall.
  split; [exact Hcall |].
  destruct (localHeuristic_run decision (logged h (ScoringFailed NoApiKey)))
    as (h' & Hrun & _ & _ & Hreq & Hcon).
  exists h'. rewrite (evaluateDecision_call_failed _ _ _ _ _ E Hcall).
  split; [exact Hrun |]. split; [apply wellFormed_localHeuristic_with |].
  split; [exact Hreq | exact Hcon].
Qed.

(** ** The round state machine *)

(** Without a session, a user name or a game the handler redirects home
    and changes nothing (lines 603-607). *)
Lemma postGame_guard (session : option Session) (form : FormValue) (h : Heap) :
  session = None
  \/ (exists s, session = Some s /\ (username s = [] \/ game s = None)) ->
  postGame session form h = (Ok (session, Redirect (utf16 "/")), h).
Proof.
  intros [-> | (s & -> & [Hu | Hg])]; [reflexivity | |]; unfold postGame.
  - rewrite Hu. reflexivity.
  - rewrite Hg. destruct (negb (nonEmpty (username s))); reflexivity.
Qed.

(** An empty decision changes nothing: the session and the heap are the
    ones the handler was given. *)
Lemma postGame_empty_decision (s : Session) (g : Game) (form : FormValue) (h : Heap) :
  nonEmpty (username s) = true ->
  game s = Some g ->
  decisionOfForm form = Ok [] ->
  postGame (Some s) form h = (Ok (Some s, Redirect (utf16 "/game")), h).
Proof.
  intros Hu Hg Hform. unfold postGame. rewrite Hu, Hg. cbn [negb].
  unfold lift, mbind, M_bind. rewrite Hform. reflexivity.
Qed.

(** With a game and a decision, the handler evaluates and writes,
    whatever the round is: the [POST] route has no test on [game.round]. *)
Lemma postGame_transition (s : Session) (g : Game) (form : FormValue)
      (decision : jsstring) (h h' : Heap) (result : EvaluationResult) :
  nonEmpty (username s) = true ->
  game s = Some g ->
  decisionOfForm form = Ok decision ->
  decision <> [] ->
  evaluateDecision decision
    {| ctx_religion := religion g; ctx_followers := followers g;
       ctx_round := round g |} h = (Ok result, h') ->
  postGame (Some s) form h
  = (Ok (if violation result
         then (Some (with_game s (applyViolation g decision result)),
               Redirect (utf16 "/end"))
         else (Some (with_game s (applyChange g decision result)),
               Redirect (utf16 "/game"))), h').
Proof.
  intros Hu Hg Hform Hne Hev. unfold postGame. rewrite Hu, Hg. cbn [negb].
  unfold lift. unfold mbind at 1. unfold M_bind at 1. rewrite Hform.
  destruct decision as [|c d]; [congruence |]. cbn [nonEmpty negb].
  unfold try_catch, attempt. unfold mbind at 1. unfold M_bind at 1.
  unfold mbind at 1. unfold M_bind at 1.
  rewrite Hev. destruct (violation result); reflexivity.
Qed.

(** When the evaluation throws, the [catch] of lines 708-712 logs the
    error and answers 500; the session is the one the handler was given. *)
Lemma postGame_evaluation_failed (s : Session) (g : Game) (form : FormValue)
      (decision : jsstring) (h h' : Heap) (e : JsError) :
  nonEmpty (username s) = true ->
  game s = Some g ->
  decisionOfForm form = Ok decision ->
  decision <> [] ->
  evaluateDecision decision
    {| ctx_religion := religion g; ctx_followers := followers g;
       ctx_round := round g |} h = (Throw e, h') ->
  e = TypeError
  /\ postGame (Some s) form h
     = (Ok (Some s, Status500 EVALUATION_FAILED_BODY),
        logged h' (EvaluationFailed TypeError)).
Proof.
  intros Hu Hg Hform Hne Hev.
  assert (e = TypeError) as ->.
  { destruct (evaluateDecision_outcome decision
                {| ctx_religion := religion g; ctx_followers := followers g;
                   ctx_round := round g |} h) as (r & h0 & Hev0 & Hr).
    rewrite Hev in Hev0. injection Hev0 as <- <-. exact Hr. }
  split; [reflexivity |].
  unfold postGame. rewrite Hu, Hg. cbn [negb].
  unfold lift. unfold mbind at 1. unfold M_bind at 1. rewrite Hform.
  destruct decision as [|c d]; [congruence |]. cbn [nonEmpty negb].
  unfold try_catch, attempt. unfold mbind at 1. unfold M_bind at 1.
  unfold mbind at 1. unfold M_bind at 1.
  rewrite Hev. reflexivity.
Qed.

(** C4. On a session whose game is in an active round (1 to 10) and a
    non-empty decision, the handler evaluates the decision and, on the
    result of the evaluation, does one of two things to the game of the
    session it returns. On a violation: followers 0, one record with the
    violation mark appended, round 11, the result stored. Otherwise:
    followers max(0, followers + change), one record with the change
    appended, round plus one (so 11 after round 10), the result stored.
    Either way followers end non-negative and the round does not go down.
    When the evaluation yields no result but throws, the handler answers
    500 and the session is the one it was given. *)
Theorem postGame_active (s : Session) (g : Game) (form : FormValue)
        (decision : jsstring) (h : Heap) :
  nonEmpty (username s) = true ->
  game s = Some g ->
  decisionOfForm form = Ok decision ->
  decision <> [] ->
  1 <= round g <= 10 ->
  exists outcome h',
    evaluateDecision decision
      {| ctx_religion := religion g; ctx_followers := followers g;
         ctx_round := round g |} h = (outcome, h')
    /\ match outcome with
       | Ok result =>
         exists s' g',
           postGame (Some s) form h
           = (Ok (Some s',
                  Redirect (utf16 (if violation result then "/end" else "/game"))),
              h')
           /\ username s' = username s
           /\ game s' = Some g'
           /\ religion g' = religion g
           /\ lastFeedback g' = Some result
           /\ (violation result = true ->
               followers g' = 0
               /\ round g' = 11
               /\ history g'
                  = history g ++
                    [ {| rec_round := round g; rec_decision := decision;
                         rec_change := JStr VIOLATION_MARK;
                         rec_comment := comment result; rec_tips := None |} ])
           /\ (violation result = false ->
               followers g' = Z.max 0 (followers g + change result)
               /\ round g' = round g + 1
               /\ (round g = 10 -> round g' = 11)
               /\ history g'
                  = history g ++
                    [ {| rec_round := round g; rec_decision := decision;
                         rec_change := JNum (change result);
                         rec_comment := comment result;
                         rec_tips := Some (tips result) |} ])
           /\ 0 <= followers g'
           /\ round g <= round g'
       | Throw e =>
         e = TypeError
         /\ postGame (Some s) form h
            = (Ok (Some s, Status500 EVALUATION_FAILED_BODY),
               logged h' (EvaluationFailed e))
       end.
Proof.
  intros Hu Hg Hform Hne Hround.
  destruct (evaluateDecision decision
              {| ctx_religion := religion g; ctx_followers := followers g;
                 ctx_round := round g |} h) as [[result | e] h'] eqn:Hev.
  - pose proof (postGame_transition s g form decision h h' result Hu Hg Hform Hne Hev)
      as Hpost.
    exists (Ok result), h'. split; [reflexivity |].
    destruct (violation result) eqn:Hviol.
    + exists (with_game s (applyViolation g decision result)),
             (applyViolation g decision result).
      split; [exact Hpost |].
      cbn [with_game username game applyViolation religion lastFeedback followers
           round history].
      split; [reflexivity |]. split; [reflexivity |]. split; [reflexivity |].
      split; [reflexivity |].
      split; [intros _; split; [reflexivity |]; split; reflexivity |].
      split; [discriminate |]. split; lia.
    + exists (with_game s (applyChange g decision result)),
             (applyChange g decision result).
      split; [exact Hpost |].
      cbn [with_game username game applyChange religion lastFeedback followers
           round history].
      split; [reflexivity |]. split; [reflexivity |]. split; [reflexivity |].
      split; [reflexivity |].
      split; [discriminate |].
      split.
      { intros _. split; [| split; [reflexivity |]; split; [lia | reflexivity]].
        destruct (Z.ltb_spec (followers g + change result) 0); lia. }
      split; [| lia].
      destruct (Z.ltb_spec (followers g + change result) 0); lia.
  - destruct (postGame_evaluation_failed s g form decision h h' e Hu Hg Hform Hne Hev)
      as [-> Hpost].
    exists (Throw TypeError), h'. split; [reflexivity |].
    split; [reflexivity | exact Hpost].
Qed.

(** Whenever the handler answers, it answers with a redirect, or with
    the 500 of the [catch] of lines 708-712; in that case the session is
    the one it was given. *)
Lemma postGame_answers (session : option Session) (form : FormValue)
      (h h' : Heap) (session' : option Session) (resp : HttpResponse) :
  postGame session form h = (Ok (session', resp), h') ->
  (exists location, resp = Redirect location)
  \/ (resp = Status500 EVALUATION_FAILED_BODY /\ session' = session).
Proof.
  unfold postGame. destruct session as [s|]; [| intros [= <- <- <-]; eauto].
  destruct (negb (nonEmpty (username s))); [intros [= <- <- <-]; eauto |].
  destruct (game s) as [g|]; [| intros [= <- <- <-]; eauto].
  unfold lift. unfold mbind at 1. unfold M_bind at 1.
  destruct (decisionOfForm form) as [decision | e]; [| discriminate].
  destruct (negb (nonEmpty decision)); [intros [= <- <- <-]; eauto |].
  destruct (evaluateDecision_outcome decision
              {| ctx_religion := religion g; ctx_followers := followers g;
                 ctx_round := round g |} h) as (r & h1 & Hev & Hr).
  unfold try_catch, attempt. unfold mbind at 1. unfold M_bind at 1.
  unfold mbind at 1. unfold M_bind at 1. rewrite Hev.
  destruct r as [result | e].
  - destruct (violation result); intros [= <- <- <-]; eauto.
  - rewrite Hr. intros [= <- <- <-]. right. split; reflexivity.
Qed.

End Pipeline.

(** ** The pipeline on the sample worlds *)

Local Abbreviation evaluateIn env backend :=
  (evaluateDecision Builtins.toLowerCase Builtins.JSON_parse env RequireOk
                    backend Scenario.draw3).

Local Abbreviation postGameIn env backend :=
  (postGame Builtins.toLowerCase Builtins.JSON_parse env RequireOk
            backend Scenario.draw3).

(** Two keys, the first one fails, the second one answers: the answer is
    returned and each key was asked once, in order. *)
Example scenario_second_key_answers :
  let '(res, h') := evaluateIn Scenario.envTwo Scenario.backendSecond
                      Scenario.decisionCharity Scenario.context9 heap0 in
  res = Ok {| violation := false; change := 120;
              comment := JStr (utf16 "ok"); tips := [JStr (utf16 "a")] |}
  /\ map fst (requests h') = [Scenario.key1; Scenario.key2]
  /\ constructed h' = [Scenario.key1; Scenario.key2]
  /\ console h' = [GeminiKeyError (utf16 "0001") (External 503)].
Proof. vm_compute. repeat split. Qed.

(** All keys fail: the fallback scorer answers and nothing is thrown. *)
Example scenario_all_keys_fail :
  let '(res, h') := evaluateIn Scenario.envTwo Scenario.backendDown
                      Scenario.decisionCharity Scenario.context9 heap0 in
  res = Ok {| violation := false; change := 120;
              comment := JStr HEURISTIC_COMMENT; tips := [] |}
  /\ map fst (requests h') = [Scenario.key1; Scenario.key2]
  /\ console h' = [GeminiKeyError (utf16 "0001") (External 503);
                   GeminiKeyError (utf16 "0002") (External 503);
                   ScoringFailed (External 503)].
Proof. vm_compute. repeat split. Qed.

(** All keys are rejected with a falsy value that is not [undefined] or
    [null]: each rejection is logged, and line 213 throws the generic
    error in place of the last rejection. *)
Example scenario_falsy_rejections :
  let '(res, h') := callGemini Scenario.envTwo RequireOk Scenario.backendRejectsEmpty
                      Scenario.decisionCharity Scenario.context9 heap0 in
  res = Throw AllKeysFailed
  /\ map fst (requests h') = [Scenario.key1; Scenario.key2]
  /\ console h' = [GeminiKeyError (utf16 "0001") (Thrown (JStr []));
                   GeminiKeyError (utf16 "0002") (Thrown (JStr []))].
Proof. vm_compute. repeat split. Qed.

(** The model answers -10000: a violation that keeps the model's comment. *)
Example scenario_backend_flags :
  fst (evaluateIn Scenario.envTwo Scenario.backendFlags
         Scenario.decisionCharity Scenario.context9 heap0)
  = Ok {| violation := true; change := -10000;
          comment := JStr (utf16 "violated"); tips := [] |}.
Proof. vm_compute. reflexivity. Qed.

(** The pool is taken as configured: a key set in two variables is two
    entries of the pool, each visited once, and one handle serves both. *)
Example scenario_key_configured_twice :
  getApiKeys Scenario.envTwice = Ok [Scenario.key1; Scenario.key1]
  /\ map fst (requests (snd (evaluateIn Scenario.envTwice Scenario.backendDown
                               Scenario.decisionCharity Scenario.context9 heap0)))
     = [Scenario.key1; Scenario.key1]
  /\ constructed (snd (evaluateIn Scenario.envTwice Scenario.backendDown
                         Scenario.decisionCharity Scenario.context9 heap0))
     = [Scenario.key1].
Proof. vm_compute. repeat split. Qed.

(** ** Witnesses and counterexamples *)

(** C1. The orchestrator is to catch every failure of the scoring call
    and of the parsing and to answer with the fallback scorer. It does so
    when the response accessor throws an [Error] object: the failure is
    logged and the fallback result returned. When the accessor throws
    [undefined], the [catch] of lines 279-282 throws a TypeError while it
    builds its log line ([err.message]): the orchestrator rejects, nothing
    is logged and the fallback scorer is not run. *)
Theorem evaluateDecision_raises_on_undefined :
  existsb (includes (Builtins.toLowerCase Scenario.decisionCharity))
          VIOLATION_KEYWORDS = false
  /\ parseGeminiResult Builtins.JSON_parse (RespAccessor (Throw (Thrown JUndefined)))
     = Throw (Thrown JUndefined)
  /\ (exists h',
        evaluateIn Scenario.envTwo Scenario.backendAccessorThrows
          Scenario.decisionCharity Scenario.context9 heap0 = (Throw TypeError, h')
        /\ map fst (requests h') = [Scenario.key1]
        /\ console h' = []
        /\ randomDraws h' = 0%nat)
  /\ ~ (exists res h',
          evaluateIn Scenario.envTwo Scenario.backendAccessorThrows
            Scenario.decisionCharity Scenario.context9 heap0 = (Ok res, h'))
  /\ (exists h',
        evaluateIn Scenario.envTwo Scenario.backendAccessorFails
          Scenario.decisionCharity Scenario.context9 heap0
        = (Ok {| violation := false; change := 120;
                 comment := JStr HEURISTIC_COMMENT; tips := [] |}, h')
        /\ console h' = [ScoringFailed (External 7)]).
Proof.
  split; [vm_compute; reflexivity |]. split; [reflexivity |].
  split.
  { eexists. split; [vm_compute; reflexivity |]. repeat split. }
  split.
  { intros (res & h' & Hev). vm_compute in Hev. discriminate. }
  eexists. split; [vm_compute; reflexivity |]. reflexivity.
Qed.

Lemma evaluateDecision_keyword_violation_witness :
  In (utf16 "bạo lực") VIOLATION_KEYWORDS
  /\ Builtins.toLowerCase Scenario.decisionShout
     = [] ++ utf16 "bạo lực" ++ utf16 "!"
  /\ exists res,
       evaluateIn Scenario.envTwo Scenario.backendSecond
         Scenario.decisionShout Scenario.context9 heap0 = (Ok res, heap0)
       /\ res = violationResult /\ violation res = true /\ change res = -10000.
Proof.
  assert (In (utf16 "bạo lực") VIOLATION_KEYWORDS) as Hin
    by (cbv [VIOLATION_KEYWORDS map In]; tauto).
  assert (Builtins.toLowerCase Scenario.decisionShout
          = [] ++ utf16 "bạo lực" ++ utf16 "!") as Hsub
    by (vm_compute; reflexivity).
  split; [exact Hin |]. split; [exact Hsub |].
  exact (evaluateDecision_keyword_violation Builtins.toLowerCase Builtins.JSON_parse
           Scenario.envTwo RequireOk Scenario.backendSecond Scenario.draw3
           Scenario.decisionShout Scenario.context9 heap0 _ _ _ Hin Hsub).
Defined.

Lemma evaluateDecision_scoring_witness :
  existsb (includes (Builtins.toLowerCase Scenario.decisionCharity))
          VIOLATION_KEYWORDS = false
  /\ parseGeminiResult Builtins.JSON_parse (RespCandidates [Some Scenario.answer120])
     = Ok {| parsed_change := 120; parsed_comment := JStr (utf16 "ok");
             parsed_tips := [JStr (utf16 "a")] |}
  /\ exists res,
       fst (evaluateIn Scenario.envTwo Scenario.backendSecond
              Scenario.decisionCharity Scenario.context9 heap0) = Ok res
       /\ violation res = false
       /\ change res = 120
       /\ comment res = JStr (utf16 "ok")
       /\ tips res = [JStr (utf16 "a")].
Proof.
  split; [vm_compute; reflexivity |]. split; [vm_compute; reflexivity |].
  destruct (proj1 (evaluateDecision_scoring Builtins.toLowerCase Builtins.JSON_parse
              Scenario.envTwo RequireOk Scenario.backendSecond Scenario.draw3
              Scenario.decisionCharity Scenario.context9 heap0)
              (RespCandidates [Some Scenario.answer120])
              {| parsed_change := 120; parsed_comment := JStr (utf16 "ok");
                 parsed_tips := [JStr (utf16 "a")] |}
              (snd (callGemini Scenario.envTwo RequireOk Scenario.backendSecond
                      Scenario.decisionCharity Scenario.context9 heap0)))
    as (res & Hev & Htips & _ & Hscore).
  - vm_compute. reflexivity.
  - vm_compute. reflexivity.
  - vm_compute. reflexivity.
  - cbn [parsed_change parsed_comment parsed_tips] in Hscore, Htips.
    destruct Hscore as (Hviol & _ & Hmid & _ & _ & Hcomment & _); [lia |].
    exists res. split; [rewrite Hev; reflexivity |].
    split; [exact Hviol |]. split; [apply Hmid; lia |].
    split; [apply Hcomment; reflexivity | exact Htips].
Defined.

Lemma postGame_active_witness :
  nonEmpty (username (Scenario.sessionOf Scenario.game9)) = true
  /\ decisionOfForm (FormOne Scenario.decisionCharity) = Ok Scenario.decisionCharity
  /\ 1 <= round Scenario.game9 <= 10
  /\ exists s' g' h',
       postGameIn Scenario.envTwo Scenario.backendEighty
         (Some (Scenario.sessionOf Scenario.game9))
         (FormOne Scenario.decisionCharity) heap0
       = (Ok (Some s', Redirect (utf16 "/game")), h')
       /\ username s' = utf16 "An"
       /\ game s' = Some g'
       /\ followers g' = 1030
       /\ round g' = 10.
Proof.
  split; [reflexivity |]. split; [vm_compute; reflexivity |].
  split; [cbn; lia |].
  destruct (postGame_active Builtins.toLowerCase Builtins.JSON_parse
              Scenario.envTwo RequireOk Scenario.backendEighty Scenario.draw3
              (Scenario.sessionOf Scenario.game9) Scenario.game9
              (FormOne Scenario.decisionCharity) Scenario.decisionCharity heap0)
    as (outcome & h' & Hev & Hout).
  - reflexivity.
  - reflexivity.
  - vm_compute. reflexivity.
  - vm_compute. discriminate.
  - cbn. lia.
  - vm_compute in Hev. injection Hev as <- <-.
    destruct Hout as (s' & g' & Hpost & Hname & Hgame & _ & _ & _ & Hscore & _).
    cbn [violation change] in Hpost, Hscore.
    destruct (Hscore eq_refl) as (Hfollowers & Hround & _).
    exists s', g'. eexists. split; [exact Hpost |].
    split; [exact Hname |]. split; [exact Hgame |].
    split; [exact Hfollowers | exact Hround].
Defined.

(** Followers 950 in round 9 and a change of 80 give followers 1030 in
    round 10. *)
Example scenario_round_nine :
  exists s' h',
    postGameIn Scenario.envTwo Scenario.backendEighty
      (Some (Scenario.sessionOf Scenario.game9))
      (FormOne Scenario.decisionCharity) heap0
    = (Ok (Some s', Redirect (utf16 "/game")), h')
    /\ (followers <$> game s') = Some 1030
    /\ (round <$> game s') = Some 10
    /\ (length ∘ history <$> game s') = Some 1%nat.
Proof. eexists _, _. vm_compute. repeat split. Qed.

(** C5. The loop is to go on to the next key after every error (line
    210). It does after a rejection with an [Error] object: the second key
    is asked and its answer returned. After a rejection with [null] the
    [catch] of lines 207-211 throws a TypeError while it builds its log
    line ([err.message]): the call is left at once; the second key, which
    would have answered, is never asked; and what is thrown is not the
    rejection that was observed. *)
Theorem callGemini_null_rejection_aborts :
  let prompt := buildGeminiPrompt Scenario.decisionCharity Scenario.context9 in
  getApiKeys Scenario.envTwo = Ok [Scenario.key1; Scenario.key2]
  /\ Scenario.backendRejectsNull 0 Scenario.key1 prompt = Throw (Thrown JNull)
  /\ Scenario.backendRejectsNull 1 Scenario.key2 prompt
     = Ok (RespCandidates [Some Scenario.answer120])
  /\ (exists h',
        callGemini Scenario.envTwo RequireOk Scenario.backendRejectsNull
          Scenario.decisionCharity Scenario.context9 heap0 = (Throw TypeError, h')
        /\ requests h' = [(Scenario.key1, prompt)]
        /\ constructed h' = [Scenario.key1]
        /\ console h' = [])
  /\ (exists h',
        callGemini Scenario.envTwo RequireOk Scenario.backendSecond
          Scenario.decisionCharity Scenario.context9 heap0
        = (Ok (RespCandidates [Some Scenario.answer120]), h')
        /\ requests h' = [(Scenario.key1, prompt); (Scenario.key2, prompt)]
        /\ constructed h' = [Scenario.key1; Scenario.key2]
        /\ console h' = [GeminiKeyError (utf16 "0001") (External 503)]).
Proof.
  intros prompt. subst prompt.
  split; [vm_compute; reflexivity |]. split; [vm_compute; reflexivity |].
  split; [vm_compute; reflexivity |].
  split.
  - eexists. split; [vm_compute; reflexivity |].
    split; [vm_compute; reflexivity |]. split; reflexivity.
  - eexists. split; [vm_compute; reflexivity |].
    split; [vm_compute; reflexivity |]. split; [reflexivity |].
    vm_compute. reflexivity.
Qed.

Lemma localHeuristic_spec_witness :
  ~ (exists kw a b, In kw VIOLATION_KEYWORDS
                    /\ Builtins.toLowerCase Scenario.decisionCharity = a ++ kw ++ b)
  /\ 0 <= Scenario.draw3 0%nat <= 6
  /\ hits POSITIVE_KEYWORDS (Builtins.toLowerCase Scenario.decisionCharity) = 2%nat
  /\ hits NEGATIVE_KEYWORDS (Builtins.toLowerCase Scenario.decisionCharity) = 0%nat
  /\ exists res h',
       localHeuristic Builtins.toLowerCase Scenario.draw3
         Scenario.decisionCharity heap0 = (Ok res, h')
       /\ violation res = false
       /\ change res = (2 - 0) * 50 + (3 - 2) * 20
       /\ -150 <= change res <= 300
       /\ -2 <= Scenario.draw3 0%nat - 2 <= 4.
Proof.
  assert (~ (exists kw a b, In kw VIOLATION_KEYWORDS
               /\ Builtins.toLowerCase Scenario.decisionCharity = a ++ kw ++ b))
    as Hclean.
  { intros Hyes. apply screening_spec in Hyes. vm_compute in Hyes. discriminate. }
  assert (0 <= Scenario.draw3 0%nat <= 6) as Hdraw by (cbv [Scenario.draw3]; lia).
  assert (hits POSITIVE_KEYWORDS (Builtins.toLowerCase Scenario.decisionCharity)
          = 2%nat) as Hpos by (vm_compute; reflexivity).
  assert (hits NEGATIVE_KEYWORDS (Builtins.toLowerCase Scenario.decisionCharity)
          = 0%nat) as Hneg by (vm_compute; reflexivity).
  split; [exact Hclean |]. split; [exact Hdraw |].
  split; [exact Hpos |]. split; [exact Hneg |].
  destruct (localHeuristic_spec Builtins.toLowerCase Scenario.draw3
              Scenario.decisionCharity heap0)
    as (res & h' & Hrun & _ & _ & _ & Hscore).
  destruct (Hscore Hclean) as (Hviol & _ & Hmid & _ & Hrange & _ & _ & Hjitter).
  rewrite Hpos, Hneg in Hmid. cbn [heap0 randomDraws Scenario.draw3] in Hmid.
  exists res, h'. split; [exact Hrun |]. split; [exact Hviol |].
  split; [apply Hmid; lia |].
  split; [exact Hrange |]. exact (Hjitter Hdraw).
Defined.

Lemma parseGeminiResult_cases_witness :
  responseText (RespCandidates [Some Scenario.answer120]) = Ok Scenario.answer120
  /\ trim Scenario.answer120 <> []
  /\ Builtins.JSON_parse
       (default (trim Scenario.answer120) (matchJsonObject (trim Scenario.answer120)))
     = Some (JObj [(utf16 "change", JNum 120); (utf16 "comment", JStr (utf16 "ok"));
                   (utf16 "tips", JArr [JStr (utf16 "a")])])
  /\ exists c cm t,
       parseGeminiResult Builtins.JSON_parse (RespCandidates [Some Scenario.answer120])
       = Ok {| parsed_change := match c with JNum n => n | _ => 0 end;
               parsed_comment := if truthy cm then cm else JStr [];
               parsed_tips := match t with JArr items => items | _ => [] end |}.
Proof.
  assert (responseText (RespCandidates [Some Scenario.answer120])
          = Ok Scenario.answer120) as Hraw by (vm_compute; reflexivity).
  assert (trim Scenario.answer120 <> []) as Hne by (vm_compute; discriminate).
  assert (Builtins.JSON_parse
            (default (trim Scenario.answer120)
                     (matchJsonObject (trim Scenario.answer120)))
          = Some (JObj [(utf16 "change", JNum 120);
                        (utf16 "comment", JStr (utf16 "ok"));
                        (utf16 "tips", JArr [JStr (utf16 "a")])])) as Hjson
    by (vm_compute; reflexivity).
  split; [exact Hraw |]. split; [exact Hne |]. split; [exact Hjson |].
  destruct (parseGeminiResult_cases Builtins.JSON_parse
              (RespCandidates [Some Scenario.answer120]))
    as (_ & _ & Hparse).
  destruct (Hparse _ Hraw) as (_ & _ & _ & _ & _ & Hok).
  destruct (Hok _ Hne Hjson) as (c & cm & t & _ & _ & _ & Hres);
    [discriminate | discriminate |].
  exists c, cm, t. exact Hres.
Defined.

(** C7. On a successful JSON parse the parser is to return change,
    comment and tips with their defaults. It does so when the text is a
    number, a string or an array; on the text [null], which parses too,
    the first property read throws a TypeError and nothing is returned. *)
Theorem parseGeminiResult_null_raises :
  Builtins.JSON_parse
    (default (trim (utf16 "null")) (matchJsonObject (trim (utf16 "null"))))
  = Some JNull
  /\ parseGeminiResult Builtins.JSON_parse (RespString (utf16 "null"))
     = Throw TypeError
  /\ ~ (exists parsed,
          parseGeminiResult Builtins.JSON_parse (RespString (utf16 "null"))
          = Ok parsed)
  /\ Forall (fun text =>
               parseGeminiResult Builtins.JSON_parse (RespString (utf16 text))
               = Ok {| parsed_change := 0; parsed_comment := JStr [];
                       parsed_tips := [] |})
            ["5"; "true"; "[1]"; "{}"]%string.
Proof.
  split; [vm_compute; reflexivity |]. split; [vm_compute; reflexivity |].
  split.
  - intros [parsed Hparsed]. vm_compute in Hparsed. discriminate.
  - repeat constructor.
Qed.

(** C8. After the last round (round 11, before [/end] is visited) the
    [GET] route sends the player to [/end], but the [POST] route still
    evaluates the decision and writes: here followers go from 0 to 120 and
    the round from 11 to 12. *)
Theorem postGame_after_last_round :
  let s := Scenario.sessionOf Scenario.gameOver in
  getGame (Some s) = Some (utf16 "/end")
  /\ exists s' h',
       postGameIn Scenario.envNone Scenario.backendDown (Some s)
         (FormOne Scenario.decisionCharity) heap0
       = (Ok (Some s', Redirect (utf16 "/game")), h')
       /\ (followers <$> game s') = Some 120
       /\ (round <$> game s') = Some 12
       /\ (length ∘ history <$> game s') = Some 1%nat
       /\ s' <> s.
Proof.
  split; [vm_compute; reflexivity |].
  eexists _, _. split; [vm_compute; reflexivity |].
  repeat split. discriminate.
Qed.

Lemma evaluateDecision_without_credentials_witness :
  getApiKeys Scenario.envNone = Throw NoApiKey
  /\ existsb (includes (Builtins.toLowerCase Scenario.decisionCharity))
             VIOLATION_KEYWORDS = false
  /\ exists h',
       evaluateIn Scenario.envNone Scenario.backendDown
         Scenario.decisionCharity Scenario.context9 heap0
       = (Ok (localHeuristic_with Builtins.toLowerCase 3 Scenario.decisionCharity), h')
       /\ requests h' = [].
Proof.
  assert (getApiKeys Scenario.envNone = Throw NoApiKey) as Hkeys
    by (vm_compute; reflexivity).
  assert (existsb (includes (Builtins.toLowerCase Scenario.decisionCharity))
                  VIOLATION_KEYWORDS = false) as Hclean
    by (vm_compute; reflexivity).
  split; [exact Hkeys |]. split; [exact Hclean |].
  destruct (evaluateDecision_without_credentials Builtins.toLowerCase
              Builtins.JSON_parse Scenario.envNone RequireOk Scenario.backendDown
              Scenario.draw3 Scenario.decisionCharity Scenario.context9 heap0
              NoApiKey Hkeys Hclean)
    as (_ & _ & h' & Hev & _ & Hreq & _).
  exists h'. split; [exact Hev | exact Hreq].
Defined.

(** C9, as stated, fails: with no credential at all the orchestrator
    still returns a well-formed evaluation, the fallback scorer's. *)
Lemma no_credentials_counterexample :
  getApiKeys Scenario.envNone = Throw NoApiKey
  /\ fst (evaluateIn Scenario.envNone Scenario.backendDown
            Scenario.decisionCharity Scenario.context9 heap0)
     = Ok {| violation := false; change := 120;
             comment := JStr HEURISTIC_COMMENT; tips := [] |}
  /\ fst (evaluateIn Scenario.envNone Scenario.backendDown
            Scenario.decisionCharity Scenario.context9 heap0)
     = fst (localHeuristic Builtins.toLowerCase Scenario.draw3
              Scenario.decisionCharity heap0).
Proof. vm_compute. repeat split. Qed.

Lemma overlapping_keywords_unreachable_witness :
  includes (Builtins.toLowerCase Scenario.decisionShout) (utf16 "bạo lực") = true
  /\ evaluateIn Scenario.envTwo Scenario.backendSecond
       Scenario.decisionShout Scenario.context9 heap0 = (Ok violationResult, heap0)
  /\ existsb (includes (Builtins.toLowerCase (utf16 "chiến tranh")))
             VIOLATION_KEYWORDS = false
  /\ hits NEGATIVE_KEYWORDS (Builtins.toLowerCase (utf16 "chiến tranh"))
     = hits [utf16 "chiến tranh"; utf16 "phân biệt"; utf16 "áp bức"]
            (Builtins.toLowerCase (utf16 "chiến tranh")).
Proof.
  assert (includes (Builtins.toLowerCase Scenario.decisionShout) (utf16 "bạo lực")
          = true) as Hshout by (vm_compute; reflexivity).
  assert (existsb (includes (Builtins.toLowerCase (utf16 "chiến tranh")))
                  VIOLATION_KEYWORDS = false) as Hclean
    by (vm_compute; reflexivity).
  destruct (overlapping_keywords_unreachable Builtins.toLowerCase Builtins.JSON_parse
              Scenario.envTwo RequireOk Scenario.backendSecond Scenario.draw3)
    as (_ & Hviol & Hscore).
  split; [exact Hshout |].
  split; [exact (proj1 (Hviol Scenario.decisionShout Scenario.context9 heap0
                          (or_introl Hshout))) |].
  split; [exact Hclean |].
  exact (proj1 (Hscore 3 (utf16 "chiến tranh") Hclean)).
Defined.

